(** * setuptools_rust.tomlgen: a shallow embedding and its properties

    The module under study is [setuptools_rust/tomlgen.py]: the
    [tomlgen_rust] command, which writes a [Cargo.toml] next to every Rust
    extension of a project (and, on request, a workspace manifest), the
    helper [_slugify], and the discovery function [find_rust_extensions].

    Python values are embedded as follows.
    - A [str] is the list of its code points ([pystr]); one element is one
      character, whatever its UTF-8 length.
    - A [dict] whose order matters (the sections and options of a
      [ConfigParser], the entries of a directory) is an association list;
      the parsed [setup.cfg] is a finite map from section names to items.
    - A call that may raise returns a [result], [Raise e] standing for the
      exception; code with effects on the file system and on the log runs
      in the monad [M], in which the state reached before an exception
      survives it.
    - [os.path] is [posixpath] (separator [/]); the file system is a tree
      of regular files and directories without symbolic links.
    - [str.lower], which a [ConfigParser] applies to option names, is a
      parameter ([StrLower]); the examples take it on ASCII strings.

    The definitions come first; the properties, numbered C1 to C10 as in
    the list of properties of the specification, follow them. *)

From Stdlib Require Import String Ascii.
From stdpp Require Import base numbers option list gmap.

Set Warnings "-register-all".

Open Scope N_scope.

(** ** Python strings *)

Abbreviation char := N.
Abbreviation pystr := (list N).

(** The literal [py "abc"] is the Python string ['abc']. *)
Definition py (s : string) : pystr :=
  (λ a, N_of_ascii a) <$> list_ascii_of_string s.

Module Str.

(** [sep.join(parts)] *)
Fixpoint join (sep : pystr) (parts : list pystr) : pystr :=
  match parts with
  | [] => []
  | [p] => p
  | p :: rest => p ++ sep ++ join sep rest
  end.

(** [s.split(c)] for a one-character separator [c]: never empty. *)
Fixpoint split (c : char) (s : pystr) : list pystr :=
  match s with
  | [] => [[]]
  | x :: s' =>
      if decide (x = c) then [] :: split c s'
      else match split c s' with
           | [] => [[x]]
           | w :: ws => (x :: w) :: ws
           end
  end.

(** [s.lstrip(..)], [s.rstrip(..)], [s.strip(..)] for the set of
    characters recognised by [drop]. *)
Fixpoint lstrip (drop : char → bool) (s : pystr) : pystr :=
  match s with
  | [] => []
  | x :: s' => if drop x then lstrip drop s' else s
  end.

Definition rstrip (drop : char → bool) (s : pystr) : pystr :=
  reverse (lstrip drop (reverse s)).

Definition strip (drop : char → bool) (s : pystr) : pystr :=
  rstrip drop (lstrip drop s).

(** [str.isspace] on one character, the table of CPython's
    [_PyUnicode_IsWhitespace]. *)
Definition isspace (c : char) : bool :=
  bool_decide (c ∈ [9; 10; 11; 12; 13; 28; 29; 30; 31; 32; 133; 160;
                    5760; 8192; 8193; 8194; 8195; 8196; 8197; 8198;
                    8199; 8200; 8201; 8202; 8232; 8233; 8239; 8287;
                    12288]).

(** [s.replace(c, new)] for a one-character [c]. *)
Definition replace (c : char) (new : pystr) (s : pystr) : pystr :=
  mjoin ((λ x, if decide (x = c) then new else [x]) <$> s).

Definition startswith (s : pystr) (prefix : pystr) : bool :=
  bool_decide (take (length prefix) s = prefix).

Definition endswith (s : pystr) (suffix : pystr) : bool :=
  bool_decide (drop (length s - length suffix) s = suffix).

End Str.

(** [string.ascii_letters], [string.digits] *)
Definition ascii_letters : pystr :=
  py "abcdefghijklmnopqrstuvwxyzABCDEFGHIJKLMNOPQRSTUVWXYZ".
Definition digits : pystr := py "0123456789".

(** ** [_slugify] (tomlgen.py, l.153-156) *)

Definition _slugify (name : pystr) : pystr :=
  let allowed : gset char := list_to_set (ascii_letters ++ digits ++ py "_") in
  let slug := (λ c, if decide (c ∈ allowed) then [c] else py "_") <$> name in
  Str.join (py "") slug.

(** The characters the specification allows in a slug, by code point:
    [A-Z], [a-z], [0-9] and [_]. *)
Definition ident_char (c : char) : Prop :=
  (65 ≤ c ≤ 90 ∨ 97 ≤ c ≤ 122) ∨ 48 ≤ c ≤ 57 ∨ c = 95.


(** ** Exceptions *)

Inductive exn :=
  | ValueError | NameError | OSError
  | DuplicateSectionError | NoSectionError.

Inductive result (A : Type) :=
  | Ok (a : A)
  | Raise (e : exn).
Arguments Ok {A} a.
Arguments Raise {A} e.

Global Instance result_ret : MRet result := λ A a, Ok a.
Global Instance result_bind : MBind result := λ A B f m,
  match m with
  | Ok a => f a
  | Raise e => Raise e
  end.

(** ** [os.path] (posixpath) *)

Module os_path.

Definition sep : char := 47.
Definition curdir : pystr := py ".".
Definition pardir : pystr := py "..".

Definition isabs (s : pystr) : bool := Str.startswith s [sep].

(** [join(a, b)]; [join(a, *p)] folds it over [p]. *)
Definition join2 (a b : pystr) : pystr :=
  if Str.startswith b [sep] then b
  else if bool_decide (a = []) || Str.endswith a [sep] then a ++ b
  else a ++ [sep] ++ b.

Definition join (a : pystr) (p : list pystr) : pystr := foldl join2 a p.

(** [dirname(p)]: the head of [p] up to its last separator, without
    trailing separators unless it consists of separators only. *)
Definition dirname (p : pystr) : pystr :=
  let head := Str.rstrip (λ x, bool_decide (x ≠ sep)) p in
  if bool_decide (head ≠ []) && bool_decide (head ≠ replicate (length head) sep)
  then Str.rstrip (λ x, bool_decide (x = sep)) head
  else head.

(** One turn of the loop of [normpath] over the components. *)
Definition normpath_step (initial_slashes : nat)
    (new_comps : list pystr) (comp : pystr) : list pystr :=
  if bool_decide (comp ∈ [py ""; py "."]) then new_comps
  else if bool_decide (comp ≠ pardir)
          || (bool_decide (initial_slashes = 0%nat) && bool_decide (new_comps = []))
          || (bool_decide (new_comps ≠ []) && bool_decide (last new_comps = Some pardir))
  then new_comps ++ [comp]
  else if bool_decide (new_comps ≠ []) then removelast new_comps
  else new_comps.

Definition normpath (p : pystr) : pystr :=
  if bool_decide (p = []) then curdir
  else
    let initial_slashes : nat :=
      if Str.startswith p (py "/") then
        if Str.startswith p (py "//") && negb (Str.startswith p (py "///"))
        then 2%nat else 1%nat
      else 0%nat in
    let comps := Str.split sep p in
    let comps := foldl (normpath_step initial_slashes) [] comps in
    let p := Str.join (py "/") comps in
    let p := replicate initial_slashes sep ++ p in
    if bool_decide (p = []) then curdir else p.

(** [abspath(p)], where [cwd] is the value of [os.getcwd()]. *)
Definition abspath (cwd p : pystr) : pystr :=
  normpath (if isabs p then p else join2 cwd p).

(** [commonprefix([a, b])] on two lists of components. *)
Fixpoint commonprefix (a b : list pystr) : list pystr :=
  match a, b with
  | x :: a', y :: b' => if decide (x = y) then x :: commonprefix a' b' else []
  | _, _ => []
  end.

(** [relpath(p, start)]; [relpath(p)] is [relpath cwd p curdir]. *)
Definition relpath (cwd p start : pystr) : result pystr :=
  if bool_decide (p = []) then Raise ValueError
  else
    let start_list := filter (λ x, x ≠ []) (Str.split sep (abspath cwd start)) in
    let path_list := filter (λ x, x ≠ []) (Str.split sep (abspath cwd p)) in
    let i := length (commonprefix start_list path_list) in
    let rel_list := replicate (length start_list - i) pardir ++ drop i path_list in
    match rel_list with
    | [] => Ok curdir
    | r :: rs => Ok (join r rs)
    end.

End os_path.

(** ** Ordered dictionaries with string keys *)

Module odict.
Section odict.
Context {V : Type}.

(** [d.get(k)] *)
Fixpoint get (k : pystr) (d : list (pystr * V)) : option V :=
  match d with
  | [] => None
  | (k', v) :: d' => if decide (k' = k) then Some v else get k d'
  end.

(** [d[k] = v]: the value of an existing key is replaced where it
    stands, a new key goes to the end. *)
Fixpoint set (k : pystr) (v : V) (d : list (pystr * V)) : list (pystr * V) :=
  match d with
  | [] => [(k, v)]
  | (k', v') :: d' =>
      if decide (k' = k) then (k, v) :: d' else (k', v') :: set k v d'
  end.

(** [for k, v in items: d[k] = v] *)
Definition update (items : list (pystr * V)) (d : list (pystr * V))
    : list (pystr * V) :=
  foldl (λ d kv, set kv.1 kv.2 d) d items.
End odict.
End odict.

(** ** The file system

    A directory holds named entries in the order in which the operating
    system lists them; a name is expected to occur once in a directory. A
    position in the tree is the list of names leading to it from the
    root; [fs_cwd] is the position of the current directory. *)

Inductive node :=
  | File (content : pystr)
  | Dir (entries : list (pystr * node)).

Abbreviation loc := (list (list N)) (only parsing).

Record filesystem := {
  fs_root : list (pystr * node);
  fs_cwd : loc
}.

Module fs.

Fixpoint lookup (es : list (pystr * node)) (l : loc) : option node :=
  match l with
  | [] => Some (Dir es)
  | k :: l' =>
      match odict.get k es with
      | Some (Dir es') => lookup es' l'
      | Some (File c) => if decide (l' = []) then Some (File c) else None
      | None => None
      end
  end.

Definition is_dir (es : list (pystr * node)) (l : loc) : bool :=
  match lookup es l with
  | Some (Dir _) => true
  | _ => false
  end.

(** Put a regular file with content [c] at position [l]. *)
Fixpoint write_at (es : list (pystr * node)) (l : loc) (c : pystr)
    : list (pystr * node) :=
  match l with
  | [] => es
  | [k] => odict.set k (File c) es
  | k :: l' =>
      match odict.get k es with
      | Some (Dir es') => odict.set k (Dir (write_at es' l' c)) es
      | _ => es
      end
  end.

(** Following one component of a path from position [cur], which has to
    be a directory. *)
Definition step (es : list (pystr * node)) (cur : option loc) (comp : pystr)
    : option loc :=
  match cur with
  | None => None
  | Some l =>
      if is_dir es l then
        if bool_decide (comp ∈ [py ""; py "."]) then Some l
        else if bool_decide (comp = py "..") then Some (removelast l)
        else Some (l ++ [comp])
      else None
  end.

(** The position a path names, when every directory on the way to it
    exists; the position itself need not exist. *)
Definition resolve (w : filesystem) (p : pystr) : option loc :=
  if bool_decide (p = []) then None
  else foldl (step (fs_root w))
             (Some (if os_path.isabs p then [] else fs_cwd w))
             (Str.split os_path.sep p).

(** [os.getcwd()] *)
Definition getcwd (w : filesystem) : pystr :=
  [os_path.sep] ++ Str.join [os_path.sep] (fs_cwd w).

(** [os.path.exists(p)] *)
Definition exists_ (w : filesystem) (p : pystr) : bool :=
  match resolve w p with
  | Some l => bool_decide (is_Some (lookup (fs_root w) l))
  | None => false
  end.

(** The content of the regular file at [p], if there is one. *)
Definition read (w : filesystem) (p : pystr) : option pystr :=
  match resolve w p with
  | Some l => match lookup (fs_root w) l with
              | Some (File c) => Some c
              | _ => None
              end
  | None => None
  end.

(** [open(p, 'w')] succeeds when the directory of [p] exists and [p]
    is not itself a directory. *)
Definition writable (w : filesystem) (p : pystr) : bool :=
  match resolve w p with
  | Some l => negb (is_dir (fs_root w) l)
  | None => false
  end.

(** [with open(p, 'w') as f: f.write(c)] *)
Definition write_file (w : filesystem) (p : pystr) (c : pystr)
    : result filesystem :=
  match resolve w p with
  | Some l =>
      if is_dir (fs_root w) l then Raise OSError
      else Ok {| fs_root := write_at (fs_root w) l c; fs_cwd := fs_cwd w |}
  | None => Raise OSError
  end.

Definition node_is_dir (n : node) : bool :=
  match n with
  | Dir _ => true
  | File _ => false
  end.

Definition subdirs (es : list (pystr * node)) : list pystr :=
  (filter (λ e, node_is_dir e.2 = true) es).*1.

Definition nondirs (es : list (pystr * node)) : list pystr :=
  (filter (λ e, node_is_dir e.2 = false) es).*1.

(** [os.walk(top)] below a directory node: the directory itself, then
    its subdirectories in listing order. *)
Fixpoint walk_node (top : pystr) (n : node)
    : list (pystr * list pystr * list pystr) :=
  match n with
  | File _ => []
  | Dir es =>
      (top, subdirs es, nondirs es)
        :: mjoin ((λ e, walk_node (os_path.join top [e.1]) e.2) <$> es)
  end.

(** [os.walk(top)]: errors of the listing are ignored, so that a [top]
    that is missing or is not a directory yields nothing. *)
Definition walk (w : filesystem) (top : pystr)
    : list (pystr * list pystr * list pystr) :=
  match resolve w top with
  | Some l => match lookup (fs_root w) l with
              | Some n => walk_node top n
              | None => []
              end
  | None => []
  end.

End fs.

(** ** [configparser.ConfigParser]

    [str.lower], which [ConfigParser.optionxform] applies to every option
    name, is a parameter of the development. *)

Class StrLower := str_lower : pystr → pystr.

Module ConfigParser.

Record t := {
  _defaults : list (pystr * pystr);
  _sections : list (pystr * list (pystr * pystr))
}.

(** [configparser.ConfigParser()] *)
Definition new : t := {| _defaults := []; _sections := [] |}.

Definition default_section : pystr := py "DEFAULT".

Definition optionxform {lower : StrLower} (option : pystr) : pystr :=
  str_lower option.

Definition sections (p : t) : list pystr := (_sections p).*1.

Definition add_section (section : pystr) (p : t) : result t :=
  if bool_decide (section = default_section) then Raise ValueError
  else if bool_decide (is_Some (odict.get section (_sections p)))
  then Raise DuplicateSectionError
  else Ok {| _defaults := _defaults p;
             _sections := _sections p ++ [(section, [])] |}.

Definition percent : char := 37.

(** [value.replace('%%', '')] *)
Fixpoint drop_escaped (s : pystr) : pystr :=
  match s with
  | [] => []
  | x :: s' =>
      match s' with
      | [] => [x]
      | y :: s'' =>
          if bool_decide (x = percent ∧ y = percent) then drop_escaped s''
          else x :: drop_escaped s'
      end
  end.

Fixpoint span_key (s : pystr) : pystr :=
  match s with
  | [] => []
  | x :: s' => if bool_decide (x = 41) then [] else x :: span_key s'
  end.

(** The length of the match of [\(([^)]+)\)s] at the start of [s]. *)
Definition keycre_match (s : pystr) : option nat :=
  match s with
  | [] => None
  | x :: s' =>
      let key := span_key s' in
      if bool_decide (x = 40) && bool_decide (key ≠ [])
         && Str.startswith (drop (length key) s') (py ")s")
      then Some (length key + 3)%nat
      else None
  end.

(** [_KEYCRE.sub('', s)] with [_KEYCRE = %\(([^)]+)\)s]; [skip] counts
    the characters of a match still to be dropped. *)
Fixpoint sub_keycre (skip : nat) (s : pystr) : pystr :=
  match s with
  | [] => []
  | x :: s' =>
      match skip with
      | S k => sub_keycre k s'
      | O =>
          if bool_decide (x = percent) then
            match keycre_match s' with
            | Some n => sub_keycre n s'
            | None => x :: sub_keycre 0 s'
            end
          else x :: sub_keycre 0 s'
      end
  end.

(** [BasicInterpolation.before_set] *)
Definition before_set (value : pystr) : result pystr :=
  let tmp_value := drop_escaped value in
  let tmp_value := sub_keycre 0 tmp_value in
  if bool_decide (percent ∈ tmp_value) then Raise ValueError else Ok value.

(** [parser.set(section, option, value)] for a string [value]. *)
Definition set {lower : StrLower} (section option value : pystr) (p : t)
    : result t :=
  value ← (if bool_decide (value ≠ []) then before_set value else Ok value);
  if bool_decide (section = []) || bool_decide (section = default_section) then
    Ok {| _defaults := odict.set (optionxform option) value (_defaults p);
          _sections := _sections p |}
  else
    match odict.get section (_sections p) with
    | None => Raise NoSectionError
    | Some sectdict =>
        Ok {| _defaults := _defaults p;
              _sections := odict.set section
                             (odict.set (optionxform option) value sectdict)
                             (_sections p) |}
    end.

Definition write_section (section_name : pystr)
    (section_items : list (pystr * pystr)) : pystr :=
  py "[" ++ section_name ++ py "]" ++ [10]
  ++ mjoin ((λ kv, kv.1 ++ py " = " ++ Str.replace 10 [10; 9] kv.2 ++ [10])
              <$> section_items)
  ++ [10].

(** The text that [parser.write(fp)] writes to [fp]. *)
Definition write (p : t) : pystr :=
  (if bool_decide (_defaults p ≠ [])
   then write_section default_section (_defaults p) else [])
  ++ mjoin ((λ s, write_section s.1 s.2) <$> _sections p).

End ConfigParser.

(** The parsed configuration files as the command reads them: the items
    of every section that [has_section] reports, as [items] returns them. *)
Abbreviation config := (gmap pystr (list (pystr * pystr))).

(** ** Effects: the file system and the log *)

Inductive level := INFO | WARN.

Record state := {
  st_fs : filesystem;
  st_log : list (level * pystr)
}.

Definition M (A : Type) : Type := state → result A * state.

Global Instance M_ret : MRet M := λ A a st, (Ok a, st).
Global Instance M_bind : MBind M := λ A B f m st,
  match m st with
  | (Ok a, st') => f a st'
  | (Raise e, st') => (Raise e, st')
  end.

(** A computation that touches neither the file system nor the log. *)
Definition lift {A} (r : result A) : M A := λ st, (r, st).

(** [for x in l: body(x)]; the result is the binding of the loop
    variable when the loop is left, [var] being its binding before. *)
Fixpoint for_in {A} (l : list A) (body : A → M unit) (var : option A)
    : M (option A) :=
  match l with
  | [] => mret var
  | x :: l' => body x ;; for_in l' body (Some x)
  end.

(** [for x in l: acc = body(acc, x)] *)
Fixpoint for_acc {A B} (l : list A) (body : B → A → M B) (acc : B) : M B :=
  match l with
  | [] => mret acc
  | x :: l' => acc ← body acc x; for_acc l' body acc
  end.

(** The same loop for code that only raises. *)
Fixpoint for_result {A B} (l : list A) (body : B → A → result B) (acc : B)
    : result B :=
  match l with
  | [] => Ok acc
  | x :: l' => acc ← body acc x; for_result l' body acc
  end.

Module os.

Definition getcwd : M pystr := λ st, (Ok (fs.getcwd (st_fs st)), st).

Definition path_exists (p : pystr) : M bool :=
  λ st, (Ok (fs.exists_ (st_fs st) p), st).

Definition walk (top : pystr) : M (list (pystr * list pystr * list pystr)) :=
  λ st, (Ok (fs.walk (st_fs st) top), st).

(** [os.path.relpath(p)], which asks for the current directory. *)
Definition path_relpath (p : pystr) : M pystr :=
  cwd ← getcwd; lift (os_path.relpath cwd p os_path.curdir).

(** [with open(p, 'w') as f: f.write(c)] *)
Definition write_file (p c : pystr) : M unit := λ st,
  match fs.write_file (st_fs st) p c with
  | Ok w => (Ok tt, {| st_fs := w; st_log := st_log st |})
  | Raise e => (Raise e, st)
  end.

End os.

Module log.

Definition emit (l : level) (msg : pystr) : M unit := λ st,
  (Ok tt, {| st_fs := st_fs st; st_log := st_log st ++ [(l, msg)] |}).

Definition info (msg : pystr) : M unit := emit INFO msg.
Definition warn (msg : pystr) : M unit := emit WARN msg.

End log.

(** ** Extensions and the distribution *)

Record RustExtension := {
  name : pystr;
  path : pystr;
  libfile : pystr
}.

(** Modelled from the spec: the class [RustExtension] is defined in
    [setuptools_rust/extension.py], which is not among the sources. The
    data model of the specification gives an extension a name, a manifest
    path and a library source path; [RustExtension(name, path)] stores its
    two arguments as they are, and the library source path is assigned
    afterwards. *)
Definition RustExtension_new (name path : pystr) : RustExtension :=
  {| name := name; path := path; libfile := [] |}.

Definition set_libfile (ext : RustExtension) (libfile : pystr) : RustExtension :=
  {| name := name ext; path := path ext; libfile := libfile |}.

(** What the command asks of [self.distribution]; the three [get_]
    fields are the values the methods of these names return. *)
Record Distribution := {
  rust_extensions : list RustExtension;
  script_name : pystr;
  get_version : pystr;
  get_author : pystr;
  get_author_email : pystr
}.

(** ** The command [tomlgen_rust] *)

(** The options of the command as [initialize_options] and the command
    line leave them; an unset boolean option counts as false. *)
Record options := {
  opt_authors : option pystr;
  opt_create_workspace : bool;
  opt_force : bool
}.

(** The command after [finalize_options]. *)
Record tomlgen_rust := {
  distribution : Distribution;
  cfg : config;
  authors : pystr;
  create_workspace : bool;
  force : bool;
  extensions : list RustExtension;
  workspace : pystr
}.

Definition dquote : char := 34.
Definition squote : char := 39.
Definition newline : char := 10.

(** [initialize_options] (l.37-46) *)
Definition initialize_options : options :=
  {| opt_authors := None; opt_create_workspace := false; opt_force := false |}.

(** The list of authors built by [finalize_options] (l.58-64). *)
Definition finalize_authors (dist : Distribution) (authors : option pystr) : pystr :=
  match authors with
  | Some authors =>
      py "[" ++ Str.join (py ", ")
                  ((λ author, Str.strip Str.isspace author)
                     <$> Str.split newline authors)
      ++ py "]"
  | None =>
      py "[" ++ [dquote] ++ get_author dist ++ py " <"
      ++ Str.strip (λ c, bool_decide (c ∈ [dquote; squote])) (get_author_email dist)
      ++ py ">" ++ [dquote] ++ py "]"
  end.

(** [finalize_options] (l.48-64); [cwd] is the value of [os.getcwd()]. *)
Definition finalize_options (dist : Distribution) (cfg : config) (cwd : pystr)
    (self : options) : tomlgen_rust :=
  {| distribution := dist;
     cfg := cfg;
     extensions := rust_extensions dist;
     workspace :=
       os_path.abspath cwd
         (let d := os_path.dirname (script_name dist) in
          if bool_decide (d ≠ []) then d else py ".");
     authors := finalize_authors dist (opt_authors self);
     create_workspace := opt_create_workspace self;
     force := opt_force self |}.

Definition quote (s : pystr) : pystr := [dquote] ++ s ++ [dquote].

(** [self.get_command_name()] *)
Definition get_command_name : pystr := py "tomlgen_rust".

(** [iter_dependencies] (l.139-150): the items the generator yields. *)
Definition iter_dependencies (self : tomlgen_rust) (ext : option RustExtension)
    : list (pystr * pystr) :=
  let command := get_command_name in
  let sections := [command ++ py ".dependencies"] in
  let sections :=
    match ext with
    | Some ext => sections ++ [command ++ py ".dependencies." ++ name ext]
    | None => sections
    end in
  mjoin ((λ section,
            match cfg self !! section with
            | Some items => items
            | None => []
            end) <$> sections).

Section generator.
Context {lower : StrLower}.

(** [build_cargo_toml] (l.89-124); [cwd] is the value of [os.getcwd()]. *)
Definition build_cargo_toml (self : tomlgen_rust) (cwd : pystr)
    (ext : RustExtension) : result ConfigParser.t :=
  let dist := distribution self in
  let toml := ConfigParser.new in
  let tomldir := os_path.dirname (path ext) in
  toml ← ConfigParser.add_section (py "package") toml;
  toml ← ConfigParser.set (py "package") (py "name") (quote (name ext)) toml;
  toml ← ConfigParser.set (py "package") (py "version") (quote (get_version dist)) toml;
  toml ← ConfigParser.set (py "package") (py "authors") (authors self) toml;
  toml ← ConfigParser.set (py "package") (py "publish") (py "false") toml;
  toml ← (if create_workspace self then
            path_to_workspace ← os_path.relpath cwd (workspace self) tomldir;
            ConfigParser.set (py "package") (py "workspace")
              (quote path_to_workspace) toml
          else Ok toml);
  toml ← ConfigParser.add_section (py "lib") toml;
  toml ← ConfigParser.set (py "lib") (py "crate-type")
           (py "[" ++ quote (py "cdylib") ++ py "]") toml;
  toml ← ConfigParser.set (py "lib") (py "name") (quote (_slugify (name ext))) toml;
  libpath ← os_path.relpath cwd (libfile ext) tomldir;
  toml ← ConfigParser.set (py "lib") (py "path") (quote libpath) toml;
  toml ← ConfigParser.add_section (py "dependencies") toml;
  for_result (iter_dependencies self (Some ext))
    (λ toml kv, ConfigParser.set (py "dependencies") kv.1 kv.2 toml) toml.

(** [build_workspace_toml] (l.126-137) *)
Definition build_workspace_toml (self : tomlgen_rust) (cwd : pystr)
    : result ConfigParser.t :=
  members ← mapM (λ ext, p ← os_path.relpath cwd (path ext) os_path.curdir;
                         mret (os_path.dirname p)) (extensions self);
  let members := quote <$> members in
  let toml := ConfigParser.new in
  toml ← ConfigParser.add_section (py "workspace") toml;
  toml ← ConfigParser.set (py "workspace") (py "members")
           (py "[" ++ Str.join (py ", ") members ++ py "]") toml;
  mret toml.

Definition msg_creating (ext : RustExtension) : pystr :=
  py "creating 'Cargo.toml' for '" ++ name ext ++ py "'".
Definition msg_skipping (ext : RustExtension) : pystr :=
  py "skipping 'Cargo.toml' for '" ++ name ext ++ py "' -- already exists".
Definition msg_creating_workspace : pystr :=
  py "creating 'Cargo.toml' for workspace".
Definition msg_skipping_workspace : pystr :=
  py "skipping 'Cargo.toml' for workspace -- already exists".

(** The body of the loop of [run] (l.70-76). *)
Definition run_ext (self : tomlgen_rust) (ext : RustExtension) : M unit :=
  cwd ← os.getcwd;
  toml ← lift (build_cargo_toml self cwd ext);
  found ← os.path_exists (path ext);
  if negb found || force self then
    log.info (msg_creating ext);;
    os.write_file (path ext) (ConfigParser.write toml)
  else
    log.warn (msg_skipping ext).

(** The workspace part of [run] (l.79-87); [ext] is the loop variable
    of the loop before it, unbound when the loop had nothing to do. *)
Definition run_workspace (self : tomlgen_rust) (ext : option RustExtension)
    : M unit :=
  if create_workspace self && bool_decide (extensions self ≠ []) then
    cwd ← os.getcwd;
    toml ← lift (build_workspace_toml self cwd);
    ext ← lift (match ext with Some ext => Ok ext | None => Raise NameError end);
    found ← os.path_exists (path ext);
    if negb found || force self then
      log.info msg_creating_workspace;;
      let toml_path := os_path.join (workspace self) [py "Cargo.toml"] in
      os.write_file toml_path (ConfigParser.write toml)
    else
      log.warn msg_skipping_workspace
  else mret tt.

(** [run] (l.66-87) *)
Definition run (self : tomlgen_rust) : M unit :=
  ext ← for_in (extensions self) (run_ext self) None;
  run_workspace self ext.

End generator.

(** ** [find_rust_extensions] (l.158-219)

    The keyword arguments that the function hands over to every
    [RustExtension] it creates play no part in what follows and are left
    out. *)

Definition find_rust_extensions (directories : list pystr) (libfile : pystr)
    : M (list RustExtension) :=
  directories ← (if bool_decide (directories ≠ []) then mret directories
                 else cwd ← os.getcwd; mret [cwd]);
  let extensions := [] in
  for_acc directories (λ extensions directory,
    visits ← os.walk directory;
    for_acc visits (λ extensions '(base, dirs, files),
      if bool_decide (libfile ∈ files) then
        rel ← os.path_relpath base;
        let dotpath := Str.replace os_path.sep (py ".") rel in
        let tomlpath := os_path.join base [py "Cargo.toml"] in
        let ext := RustExtension_new dotpath tomlpath in
        let ext := set_libfile ext (os_path.join base [libfile]) in
        mret (extensions ++ [ext])
      else mret extensions) extensions) extensions.

(** ** Definitions used by the statements *)

Definition ident_char_dec (c : char) : Decision (ident_char c) :=
  ltac:(unfold ident_char; apply _).
Global Existing Instance ident_char_dec.

Definition slug_char (c : char) : char := if decide (ident_char c) then c else 95.

Definition fs_le (w w' : filesystem) : Prop :=
  fs_cwd w = fs_cwd w'
  ∧ (∀ l, fs.is_dir (fs_root w) l = true → fs.is_dir (fs_root w') l = true)
  ∧ (∀ l, is_Some (fs.lookup (fs_root w) l) → is_Some (fs.lookup (fs_root w') l)).

Definition with_force (b : bool) (self : tomlgen_rust) : tomlgen_rust :=
  {| distribution := distribution self; cfg := cfg self; authors := authors self;
     create_workspace := create_workspace self; force := b;
     extensions := extensions self; workspace := workspace self |}.

Definition add_log (st : state) (entries : list (level * pystr)) : state :=
  {| st_fs := st_fs st; st_log := st_log st ++ entries |}.

Definition set_fs (st : state) (w : filesystem) : state :=
  {| st_fs := w; st_log := st_log st |}.

(** The manifest of [ext] is in place and its document can be built. *)
Definition ready {lower : StrLower} (self : tomlgen_rust) (w : filesystem)
    (ext : RustExtension) : Prop :=
  fs.exists_ w (path ext) = true
  ∧ ∃ toml, build_cargo_toml self (fs.getcwd w) ext = Ok toml.

(** [str.lower] on ASCII strings: [A-Z] go to [a-z]. *)
Definition ascii_lower : StrLower :=
  fmap (λ c : char, if bool_decide (65 ≤ c ≤ 90) then c + 32 else c).

(** A small project: [setup.py] and one extension below [lib/]. *)
Module demo.

Definition cwd : loc := [py "home"; py "u"; py "proj"].

Definition project (rustext : list (pystr * node)) : filesystem :=
  {| fs_root :=
       [(py "home",
         Dir [(py "u",
           Dir [(py "proj",
             Dir [(py "setup.py", File (py "setup()"));
                  (py "lib",
                   Dir [(py "mylib",
                     Dir [(py "__init__.py", File []);
                          (py "rustext", Dir rustext)])])])])])];
     fs_cwd := cwd |}.

(** Before the first run, and with a manifest already in place. *)
Definition fresh : filesystem := project [(py "lib.rs", File (py "// lib"))].
Definition stale : filesystem :=
  project [(py "lib.rs", File (py "// lib")); (py "Cargo.toml", File (py "old"))].

Definition ext : RustExtension :=
  {| name := py "lib.mylib.rustext";
     path := py "lib/mylib/rustext/Cargo.toml";
     libfile := py "lib/mylib/rustext/lib.rs" |}.

Definition dist : Distribution :=
  {| rust_extensions := [ext];
     script_name := py "setup.py";
     get_version := py "1.2.3";
     get_author := py "A. Dev";
     get_author_email := py "'a@x.com'" |}.

Definition setup_cfg : config :=
  {[ py "tomlgen_rust.dependencies" :=
       [(py "pyo3", py "{ version = '0.1' }"); (py "libc", quote (py "1"))];
     py "tomlgen_rust.dependencies.lib.mylib.rustext" :=
       [(py "libc", quote (py "2"))] ]}.

Definition command (create_workspace force : bool) : tomlgen_rust :=
  finalize_options dist setup_cfg (fs.getcwd fresh)
    {| opt_authors := None;
       opt_create_workspace := create_workspace;
       opt_force := force |}.

Definition start (w : filesystem) : state := {| st_fs := w; st_log := [] |}.

End demo.

(** [t] is [s] without the characters of [drop] at its two ends. *)
Definition stripped_of (drop : char → bool) (s t : pystr) : Prop :=
  ∃ pre post,
    s = pre ++ t ++ post
    ∧ Forall (λ c, drop c = true) pre
    ∧ Forall (λ c, drop c = true) post
    ∧ (∀ c, head t = Some c → drop c = false)
    ∧ (∀ c, last t = Some c → drop c = false).

(** [parts] are the pieces of [s] between the occurrences of [c]. *)
Definition pieces_of (c : char) (s : pystr) (parts : list pystr) : Prop :=
  Str.join [c] parts = s ∧ parts ≠ [] ∧ Forall (λ part, c ∉ part) parts.

(** The directories that discovery visits, in order: every directory
    below every root, once for each root it lies below. *)
Definition visited (w : filesystem) (directories : list pystr)
    : list (pystr * list pystr * list pystr) :=
  mjoin (fs.walk w <$> (if bool_decide (directories ≠ []) then directories
                        else [fs.getcwd w])).

(** [ext] is the extension that the specification describes for the
    visited directory [visit]. *)
Definition extension_of (w : filesystem) (entry : pystr)
    (ext : RustExtension) (visit : pystr * list pystr * list pystr) : Prop :=
  let base := visit.1.1 in
  ∃ rel, os_path.relpath (fs.getcwd w) base os_path.curdir = Ok rel
    ∧ name ext = Str.replace os_path.sep (py ".") rel
    ∧ path ext = os_path.join base [py "Cargo.toml"]
    ∧ libfile ext = os_path.join base [entry].

(** Every visited directory with the entry file has exactly one of the
    extensions [exts], those whose manifest lies in it. *)
Definition one_extension_per_directory (w : filesystem)
    (directories : list pystr) (libfile : pystr) (exts : list RustExtension) : Prop :=
  ∀ visit, visit ∈ visited w directories → libfile ∈ visit.2 →
    length (filter (λ ext, path ext = os_path.join visit.1.1 [py "Cargo.toml"]) exts)
    = 1%nat.

(** ** Definitions used by the further properties *)

(** The content of the regular file at a position, if there is one. *)
Definition file_at (es : list (pystr * node)) (l : loc) : option pystr :=
  match fs.lookup es l with
  | Some (File c) => Some c
  | _ => None
  end.

(** Two file systems with the same directories and current directory. *)
Definition same_dirs (w w' : filesystem) : Prop :=
  fs_cwd w = fs_cwd w'
  ∧ ∀ l, fs.is_dir (fs_root w') l = fs.is_dir (fs_root w) l.

(** Two file systems with the same directories and the same files. *)
Definition same_files (w w' : filesystem) : Prop :=
  same_dirs w w' ∧ ∀ l, file_at (fs_root w') l = file_at (fs_root w) l.

(** What a position holds after the writes [W], the last of which wins,
    when it held [v] before. *)
Definition overlay_at (W : list (loc * pystr)) (l : loc) (v : option pystr)
    : option pystr :=
  foldl (λ v w, if decide (w.1 = l) then Some w.2 else v) v W.

(** [st'] is [st] after the writes [W]. *)
Definition written (W : list (loc * pystr)) (st st' : state) : Prop :=
  same_dirs (st_fs st) (st_fs st')
  ∧ ∀ l, file_at (fs_root (st_fs st')) l
         = overlay_at W l (file_at (fs_root (st_fs st)) l).

(** The paths that [run] may write to. *)
Definition targets (self : tomlgen_rust) : list pystr :=
  (path <$> extensions self) ++ [os_path.join (workspace self) [py "Cargo.toml"]].

(** The names of the options that [build_cargo_toml] sets. *)
Definition manifest_options : list pystr :=
  [py "name"; py "version"; py "authors"; py "publish"; py "workspace";
   py "crate-type"; py "path"].

(** * Properties *)

(** ** The model at work *)

Example finalize_authors_given :
  finalize_authors demo.dist
    (Some (py "  Ann <ann@x.org> " ++ [newline; 9] ++ py "Bob" ++ [13; newline]))
  = py "[Ann <ann@x.org>, Bob, ]".
Proof. vm_compute. reflexivity. Qed.

Example finalize_authors_default :
  finalize_authors demo.dist None = py "[" ++ quote (py "A. Dev <a@x.com>") ++ py "]".
Proof. vm_compute. reflexivity. Qed.

Example build_workspace_toml_demo :
  (toml ← build_workspace_toml (lower := ascii_lower) (demo.command true false)
            (fs.getcwd demo.fresh);
   mret (ConfigParser.write toml))
  = Ok (py "[workspace]" ++ [newline]
        ++ py "members = [" ++ quote (py "lib/mylib/rustext") ++ py "]" ++ [newline]
        ++ [newline]).
Proof. vm_compute. reflexivity. Qed.

Example find_rust_extensions_demo :
  find_rust_extensions [] (py "lib.rs") (demo.start demo.fresh)
  = (Ok [ {| name := py "lib.mylib.rustext";
             path := py "/home/u/proj/lib/mylib/rustext/Cargo.toml";
             libfile := py "/home/u/proj/lib/mylib/rustext/lib.rs" |} ],
     demo.start demo.fresh).
Proof. vm_compute. reflexivity. Qed.

(** ** [_slugify] *)

Lemma allowed_ident_char (c : char) :
  c ∈ ascii_letters ++ digits ++ py "_" ↔ ident_char c.
Proof.
  unfold ident_char.
  let l := eval vm_compute in (ascii_letters ++ digits ++ py "_") in
  change (ascii_letters ++ digits ++ py "_") with l.
  rewrite !elem_of_cons, elem_of_nil. lia.
Qed.

Lemma join_empty_sep (parts : list pystr) : Str.join (py "") parts = mjoin parts.
Proof.
  induction parts as [|p parts IH]; [done|].
  destruct parts as [|p' parts]; [by cbn; rewrite app_nil_r|].
  change (p ++ py "" ++ Str.join (py "") (p' :: parts) = p ++ mjoin (p' :: parts)).
  by rewrite IH.
Qed.

Lemma mjoin_singletons {A} (g : A → A) (s : list A) :
  mjoin ((λ c, [g c]) <$> s) = g <$> s.
Proof. induction s as [|c s IH]; [done|]. cbn. by f_equal. Qed.

Lemma _slugify_fmap (s : pystr) : _slugify s = slug_char <$> s.
Proof.
  unfold _slugify. rewrite join_empty_sep, <- mjoin_singletons. f_equal.
  apply list_fmap_ext. intros _ c _. unfold slug_char.
  destruct (decide (c ∈ _)) as [Hc|Hc]; rewrite elem_of_list_to_set, allowed_ident_char in Hc;
    destruct (decide (ident_char c)); done.
Qed.

Lemma slug_char_ident (c : char) : ident_char (slug_char c).
Proof. unfold slug_char. destruct (decide _); [done|]. unfold ident_char. lia. Qed.

Lemma slug_char_id (c : char) : ident_char c → slug_char c = c.
Proof. unfold slug_char. intros. by destruct (decide _). Qed.

(** C3. For every string, [_slugify] returns a string of the same length,
    all of whose characters are ASCII letters, ASCII digits or the
    underscore; at every position an allowed character is kept and any
    other character is replaced by the underscore (code point 95). *)
Theorem slugify_shape (s : pystr) :
  length (_slugify s) = length s
  ∧ Forall ident_char (_slugify s)
  ∧ ∀ (i : nat) (c : char), s !! i = Some c →
      _slugify s !! i = Some (if decide (ident_char c) then c else 95).
Proof.
  rewrite _slugify_fmap. split_and!.
  - apply length_fmap.
  - apply Forall_fmap, Forall_true. intros c. apply slug_char_ident.
  - intros i c Hi. by rewrite list_lookup_fmap, Hi.
Qed.

Lemma slugify_shape_witness :
  let s := py "my-lib." ++ [233] in
  length (_slugify s) = 8%nat
  ∧ _slugify s !! 0%nat = Some 109
  ∧ _slugify s !! 2%nat = Some 95
  ∧ _slugify s !! 7%nat = Some 95.
Proof.
  intros s. destruct (slugify_shape s) as (Hlen & _ & Hat). split_and!.
  - rewrite Hlen. reflexivity.
  - rewrite (Hat 0%nat 109 eq_refl). reflexivity.
  - rewrite (Hat 2%nat 45 eq_refl). reflexivity.
  - rewrite (Hat 7%nat 233 eq_refl). reflexivity.
Defined.

(** C10. [_slugify] is idempotent, and it is the identity on the strings
    made of ASCII letters, ASCII digits and underscores only. *)
Theorem slugify_idempotent (s : pystr) :
  _slugify (_slugify s) = _slugify s
  ∧ (Forall ident_char s → _slugify s = s).
Proof.
  rewrite !_slugify_fmap. split.
  - rewrite <- list_fmap_compose. apply list_fmap_ext. intros _ c _. cbn.
    apply slug_char_id, slug_char_ident.
  - intros Hs. rewrite <- (list_fmap_id s) at 2. apply Forall_fmap_ext_1.
    eapply Forall_impl; [done|]. intros c Hc. by apply slug_char_id.
Qed.

Lemma slugify_idempotent_witness :
  _slugify (py "lib_mylib_Rust2") = py "lib_mylib_Rust2".
Proof.
  apply (slugify_idempotent (py "lib_mylib_Rust2")).
  apply (bool_decide_unpack _). vm_compute. reflexivity.
Defined.

(** ** Ordered dictionaries *)

Section odict_facts.
Context {V : Type}.
Implicit Types (d : list (pystr * V)) (k : pystr) (v : V).

Lemma odict_get_set_eq k v d : odict.get k (odict.set k v d) = Some v.
Proof.
  induction d as [|[k' v'] d IH]; cbn.
  - by rewrite decide_True.
  - destruct (decide (k' = k)) as [->|Hne]; cbn.
    + by rewrite decide_True.
    + by rewrite decide_False.
Qed.

Lemma odict_get_set_ne k k' v d :
  k ≠ k' → odict.get k' (odict.set k v d) = odict.get k' d.
Proof.
  intros Hne. induction d as [|[k0 v0] d IH]; cbn.
  - by rewrite decide_False.
  - destruct (decide (k0 = k)) as [->|Hne0]; cbn.
    + by rewrite !decide_False.
    + destruct (decide (k0 = k')); [done|apply IH].
Qed.

Lemma odict_get_None k d : odict.get k d = None ↔ k ∉ d.*1.
Proof.
  induction d as [|[k0 v0] d IH]; cbn.
  - split; [intros _; apply not_elem_of_nil|done].
  - rewrite not_elem_of_cons. destruct (decide (k0 = k)) as [->|Hne].
    + split; [done|]. intros [? _]. done.
    + rewrite IH. split; [by intros ?|by intros [_ ?]].
Qed.

Lemma odict_get_is_Some k d : is_Some (odict.get k d) ↔ k ∈ d.*1.
Proof.
  rewrite <- not_eq_None_Some, odict_get_None.
  split; [apply dec_stable|auto].
Qed.

Lemma odict_set_keys_present k v d :
  k ∈ d.*1 → (odict.set k v d).*1 = d.*1.
Proof.
  induction d as [|[k0 v0] d IH]; cbn.
  - by intros ?%elem_of_nil.
  - destruct (decide (k0 = k)) as [->|Hne]; cbn; [done|].
    intros [?|?]%elem_of_cons; [congruence|]. f_equal. auto.
Qed.

Lemma odict_set_keys_absent k v d :
  k ∉ d.*1 → (odict.set k v d).*1 = d.*1 ++ [k].
Proof.
  induction d as [|[k0 v0] d IH]; cbn; [done|].
  rewrite not_elem_of_cons. intros [Hne Hk].
  rewrite decide_False by done. cbn. f_equal. auto.
Qed.

Lemma odict_set_NoDup k v d : NoDup d.*1 → NoDup (odict.set k v d).*1.
Proof.
  intros Hd. destruct (decide (k ∈ d.*1)) as [Hk|Hk].
  - by rewrite odict_set_keys_present.
  - rewrite odict_set_keys_absent by done.
    apply NoDup_app. split_and!; [done| |apply NoDup_singleton].
    intros x Hx ->%list_elem_of_singleton. done.
Qed.
End odict_facts.

(** ** The file system: positions in the tree *)

Section fs_facts.
Implicit Types (es : list (pystr * node)) (l : loc) (k c : pystr).

Lemma fs_is_dir_cons es k l :
  fs.is_dir es (k :: l) =
    match odict.get k es with
    | Some (Dir es') => fs.is_dir es' l
    | _ => false
    end.
Proof.
  unfold fs.is_dir. cbn. destruct (odict.get k es) as [[?|?]|]; [|done..].
  by destruct (decide (l = [])).
Qed.

Lemma fs_is_dir_app es l k :
  fs.is_dir es (l ++ [k]) = true → fs.is_dir es l = true.
Proof.
  revert es. induction l as [|k0 l IH]; intros es; [done|].
  cbn [app]. rewrite !fs_is_dir_cons.
  destruct (odict.get k0 es) as [[?|?]|]; auto.
Qed.

Lemma fs_is_dir_removelast es l :
  fs.is_dir es l = true → fs.is_dir es (removelast l) = true.
Proof.
  destruct l as [|k l] using rev_ind; [done|].
  rewrite removelast_last. apply fs_is_dir_app.
Qed.

(** Writing a file somewhere keeps directories and keeps what exists. *)
Lemma fs_write_at_is_dir es l c l' :
  fs.is_dir es l = false → fs.is_dir es l' = true →
  fs.is_dir (fs.write_at es l c) l' = true.
Proof.
  revert es l'. induction l as [|k l IH]; intros es l' Hl Hl'; [done|].
  destruct l' as [|k' l']; [done|].
  rewrite fs_is_dir_cons in Hl, Hl'. rewrite fs_is_dir_cons.
  destruct l as [|k1 l].
  - cbn [fs.write_at]. destruct (decide (k = k')) as [->|Hne].
    + destruct (odict.get k' es) as [[?|?]|]; [done| |done].
      cbn in Hl. done.
    + by rewrite odict_get_set_ne.
  - cbn [fs.write_at]. destruct (odict.get k es) as [[?|es']|] eqn:Hk;
      [by rewrite Hl'..| |by rewrite Hl'].
    destruct (decide (k = k')) as [->|Hne].
    + rewrite odict_get_set_eq. rewrite Hk in Hl'. by apply IH.
    + by rewrite odict_get_set_ne.
Qed.

Lemma fs_lookup_cons_is_Some es k l :
  is_Some (fs.lookup es (k :: l)) ↔
    match odict.get k es with
    | Some (Dir es') => is_Some (fs.lookup es' l)
    | Some (File _) => l = []
    | None => False
    end.
Proof.
  cbn. destruct (odict.get k es) as [[?|?]|]; [|done|].
  - destruct (decide (l = [])); split; done.
  - split; [by intros []%is_Some_None|done].
Qed.

Lemma fs_write_at_is_Some es l c l' :
  fs.is_dir es l = false → is_Some (fs.lookup es l') →
  is_Some (fs.lookup (fs.write_at es l c) l').
Proof.
  revert es l'. induction l as [|k l IH]; intros es l' Hl Hl'; [done|].
  destruct l' as [|k' l']; [done|].
  rewrite fs_is_dir_cons in Hl. rewrite fs_lookup_cons_is_Some in Hl'.
  rewrite fs_lookup_cons_is_Some.
  destruct l as [|k1 l].
  - cbn [fs.write_at]. destruct (decide (k = k')) as [->|Hne].
    + rewrite odict_get_set_eq.
      destruct (odict.get k' es) as [[?|?]|]; [done| |done].
      cbn in Hl. done.
    + by rewrite odict_get_set_ne.
  - cbn [fs.write_at]. destruct (odict.get k es) as [[?|es']|] eqn:Hk; [done| |done].
    destruct (decide (k = k')) as [->|Hne].
    + rewrite odict_get_set_eq. rewrite Hk in Hl'. by apply IH.
    + by rewrite odict_get_set_ne.
Qed.

(** The file written is there afterwards. *)
Lemma fs_write_at_lookup es l k c :
  fs.is_dir es l = true → fs.is_dir es (l ++ [k]) = false →
  fs.lookup (fs.write_at es (l ++ [k]) c) (l ++ [k]) = Some (File c).
Proof.
  revert es. induction l as [|k0 l IH]; intros es Hl Hlk.
  - cbn. by rewrite odict_get_set_eq.
  - rewrite fs_is_dir_cons in Hl. cbn [app] in *. rewrite fs_is_dir_cons in Hlk.
    destruct (odict.get k0 es) as [[?|es']|] eqn:Hk0; [done| |done].
    assert (fs.write_at es (k0 :: l ++ [k]) c
            = odict.set k0 (Dir (fs.write_at es' (l ++ [k]) c)) es) as ->.
    { cbn [fs.write_at]. rewrite Hk0. by destruct l. }
    cbn [fs.lookup]. rewrite odict_get_set_eq. by apply IH.
Qed.
End fs_facts.

(** ** The file system: paths, [open] and [os.path.exists] *)

Section fs_paths.
Implicit Types (w : filesystem) (es : list (pystr * node)) (l : loc) (p c : pystr).

Lemma fs_le_refl w : fs_le w w.
Proof. done. Qed.

Lemma fs_le_trans w1 w2 w3 : fs_le w1 w2 → fs_le w2 w3 → fs_le w1 w3.
Proof.
  intros (Hc & Hd & He) (Hc' & Hd' & He'). split_and!; [congruence|auto..].
Qed.

Lemma fs_steps_None es comps : foldl (fs.step es) None comps = None.
Proof. by induction comps. Qed.

Lemma fs_step_Some es cur comp l :
  fs.step es cur comp = Some l →
  ∃ l0, cur = Some l0 ∧ fs.is_dir es l0 = true
        ∧ (l = l0 ∨ l = removelast l0 ∨ l = l0 ++ [comp]).
Proof.
  unfold fs.step. destruct cur as [l0|]; [|done].
  destruct (fs.is_dir es l0) eqn:Hd; [|done].
  intros H. exists l0. split_and!; [done..|].
  repeat case_bool_decide; simplify_eq; auto.
Qed.

Lemma fs_steps_mono es es' cur comps l :
  (∀ l, fs.is_dir es l = true → fs.is_dir es' l = true) →
  foldl (fs.step es) cur comps = Some l →
  foldl (fs.step es') cur comps = Some l.
Proof.
  intros Hd. revert cur. induction comps as [|comp comps IH]; intros cur; [done|].
  cbn. intros H. destruct (fs.step es cur comp) as [l1|] eqn:Hs.
  - assert (fs.step es' cur comp = Some l1) as ->; [|by apply IH].
    unfold fs.step in Hs |- *. destruct cur as [l0|]; [|done].
    destruct (fs.is_dir es l0) eqn:Hl0; [|done]. by rewrite (Hd _ Hl0).
  - by rewrite fs_steps_None in H.
Qed.

Lemma fs_resolve_mono w w' p l :
  fs_le w w' → fs.resolve w p = Some l → fs.resolve w' p = Some l.
Proof.
  intros (Hc & Hd & _). unfold fs.resolve. case_bool_decide; [done|].
  rewrite <- Hc. by apply fs_steps_mono.
Qed.

Lemma fs_exists_mono w w' p :
  fs_le w w' → fs.exists_ w p = true → fs.exists_ w' p = true.
Proof.
  intros Hle. unfold fs.exists_.
  destruct (fs.resolve w p) as [l|] eqn:Hr; [|done].
  rewrite (fs_resolve_mono _ _ _ _ Hle Hr).
  rewrite !bool_decide_eq_true. apply Hle.
Qed.

(** A resolved position is a directory, or lies in one. *)
Lemma fs_steps_parent es cur comps l :
  comps ≠ [] → foldl (fs.step es) cur comps = Some l →
  fs.is_dir es l = true
  ∨ ∃ l0 k, l = l0 ++ [k] ∧ fs.is_dir es l0 = true.
Proof.
  destruct comps as [|comp comps _] using rev_ind; [done|]. intros _.
  rewrite foldl_snoc. intros (l0 & _ & Hl0 & [->| [->| ->]])%fs_step_Some; eauto.
  left. by apply fs_is_dir_removelast.
Qed.

Lemma str_split_nonempty x p : Str.split x p ≠ [].
Proof.
  destruct p as [|y p]; cbn; [done|].
  destruct (decide (y = x)); [done|]. by destruct (Str.split x p).
Qed.

Lemma fs_resolve_parent w p l :
  fs.resolve w p = Some l →
  fs.is_dir (fs_root w) l = true
  ∨ ∃ l0 k, l = l0 ++ [k] ∧ fs.is_dir (fs_root w) l0 = true.
Proof.
  unfold fs.resolve. case_bool_decide; [done|].
  apply fs_steps_parent, str_split_nonempty.
Qed.

Lemma fs_write_file_Ok w p c w' :
  fs.write_file w p c = Ok w' →
  ∃ l, fs.resolve w p = Some l ∧ fs.is_dir (fs_root w) l = false
       ∧ w' = {| fs_root := fs.write_at (fs_root w) l c; fs_cwd := fs_cwd w |}.
Proof.
  unfold fs.write_file. destruct (fs.resolve w p) as [l|]; [|done].
  destruct (fs.is_dir (fs_root w) l) eqn:Hd; [done|].
  intros [= <-]. eauto.
Qed.

Lemma fs_write_file_writable w p c :
  fs.writable w p = true →
  ∃ w', fs.write_file w p c = Ok w'.
Proof.
  unfold fs.writable, fs.write_file. destruct (fs.resolve w p) as [l|]; [|done].
  destruct (fs.is_dir (fs_root w) l); [done|]. eauto.
Qed.

Lemma fs_write_file_le w p c w' : fs.write_file w p c = Ok w' → fs_le w w'.
Proof.
  intros (l & Hr & Hd & ->)%fs_write_file_Ok. split_and!; cbn; [done|..].
  - intros l'. by apply fs_write_at_is_dir.
  - intros l'. by apply fs_write_at_is_Some.
Qed.

Lemma fs_write_file_read w p c w' :
  fs.write_file w p c = Ok w' → fs.read w' p = Some c.
Proof.
  intros Hw. pose proof (fs_write_file_le _ _ _ _ Hw) as Hle.
  destruct (fs_write_file_Ok _ _ _ _ Hw) as (l & Hr & Hd & ->).
  unfold fs.read. rewrite (fs_resolve_mono _ _ _ _ Hle Hr). cbn.
  destruct (fs_resolve_parent _ _ _ Hr) as [?|(l0 & k & -> & Hl0)]; [congruence|].
  by rewrite fs_write_at_lookup.
Qed.

Lemma fs_read_exists w p c : fs.read w p = Some c → fs.exists_ w p = true.
Proof.
  unfold fs.read, fs.exists_. destruct (fs.resolve w p) as [l|]; [|done].
  destruct (fs.lookup (fs_root w) l); [|done]. intros _.
  by apply bool_decide_eq_true.
Qed.

Lemma fs_write_file_exists w p c w' :
  fs.write_file w p c = Ok w' → fs.exists_ w' p = true.
Proof. intros. eapply fs_read_exists, fs_write_file_read; eauto. Qed.

Lemma fs_getcwd_le w w' : fs_le w w' → fs.getcwd w' = fs.getcwd w.
Proof. intros (Hc & _). unfold fs.getcwd. by rewrite Hc. Qed.
End fs_paths.

(** ** The loops *)

Lemma M_bind_eq {A B} (m : M A) (f : A → M B) st :
  (m ≫= f) st = match m st with
                | (Ok a, st') => f a st'
                | (Raise e, st') => (Raise e, st')
                end.
Proof. done. Qed.

Lemma for_in_cons {A} (x : A) l body var st :
  for_in (x :: l) body var st =
    match body x st with
    | (Ok _, st') => for_in l body (Some x) st'
    | (Raise e, st') => (Raise e, st')
    end.
Proof. done. Qed.

Lemma for_in_nil {A} (body : A → M unit) var st :
  for_in [] body var st = (Ok var, st).
Proof. done. Qed.

Lemma for_in_var {A} (l : list A) body var st v st' :
  for_in l body var st = (Ok v, st') →
  v = match last l with Some x => Some x | None => var end.
Proof.
  revert var st. induction l as [|x l IH]; intros var st.
  - rewrite for_in_nil. intros ?. by simplify_eq.
  - rewrite for_in_cons. destruct (body x st) as [[[]|e] st1]; [|done].
    intros ->%IH. rewrite last_cons. by destruct (last l).
Qed.

Lemma for_in_app {A} (l1 l2 : list A) body var st :
  for_in (l1 ++ l2) body var st =
    match for_in l1 body var st with
    | (Ok v, st') => for_in l2 body v st'
    | (Raise e, st') => (Raise e, st')
    end.
Proof.
  revert var st. induction l1 as [|x l1 IH]; intros var st; [done|].
  cbn [app]. rewrite !for_in_cons. destruct (body x st) as [[[]|e] st1]; [|done].
  apply IH.
Qed.

(** ** [run] *)

Section run_facts.
Context {lower : StrLower}.
Implicit Types (self : tomlgen_rust) (ext : RustExtension) (st : state).

Lemma run_ext_eq self ext st :
  run_ext self ext st =
    match build_cargo_toml self (fs.getcwd (st_fs st)) ext with
    | Raise e => (Raise e, st)
    | Ok toml =>
        if negb (fs.exists_ (st_fs st) (path ext)) || force self then
          match fs.write_file (st_fs st) (path ext) (ConfigParser.write toml) with
          | Ok w => (Ok tt, set_fs (add_log st [(INFO, msg_creating ext)]) w)
          | Raise e => (Raise e, add_log st [(INFO, msg_creating ext)])
          end
        else (Ok tt, add_log st [(WARN, msg_skipping ext)])
    end.
Proof.
  unfold run_ext. rewrite M_bind_eq. cbn [os.getcwd].
  rewrite M_bind_eq. unfold lift at 1.
  destruct (build_cargo_toml _ _ _) as [toml|e]; [|done].
  rewrite M_bind_eq. cbn [os.path_exists].
  destruct (negb _ || _); [|done].
  rewrite M_bind_eq. cbn. unfold os.write_file. cbn.
  by destruct (fs.write_file _ _ _).
Qed.

Lemma run_workspace_eq self v st :
  run_workspace self v st =
    if create_workspace self && bool_decide (extensions self ≠ []) then
      match build_workspace_toml self (fs.getcwd (st_fs st)) with
      | Raise e => (Raise e, st)
      | Ok toml =>
          match v with
          | None => (Raise NameError, st)
          | Some ext =>
              if negb (fs.exists_ (st_fs st) (path ext)) || force self then
                match fs.write_file (st_fs st)
                        (os_path.join (workspace self) [py "Cargo.toml"])
                        (ConfigParser.write toml) with
                | Ok w => (Ok tt, set_fs (add_log st [(INFO, msg_creating_workspace)]) w)
                | Raise e => (Raise e, add_log st [(INFO, msg_creating_workspace)])
                end
              else (Ok tt, add_log st [(WARN, msg_skipping_workspace)])
          end
      end
    else (Ok tt, st).
Proof.
  unfold run_workspace. destruct (_ && _); [|done].
  rewrite M_bind_eq. cbn [os.getcwd].
  rewrite M_bind_eq. unfold lift at 1.
  destruct (build_workspace_toml _ _) as [toml|e]; [|done].
  rewrite M_bind_eq. unfold lift. destruct v as [ext|]; [|done].
  rewrite M_bind_eq. cbn [os.path_exists].
  destruct (negb _ || _); [|done].
  rewrite M_bind_eq. cbn. unfold os.write_file. cbn.
  by destruct (fs.write_file _ _ _).
Qed.

Lemma run_eq self st :
  run self st =
    match for_in (extensions self) (run_ext self) None st with
    | (Ok v, st') => run_workspace self v st'
    | (Raise e, st') => (Raise e, st')
    end.
Proof. done. Qed.

(** A turn of the loop that returns leaves the manifest in place. *)
Lemma run_ext_Ok self ext st st' :
  run_ext self ext st = (Ok tt, st') →
  fs_le (st_fs st) (st_fs st')
  ∧ fs.exists_ (st_fs st') (path ext) = true
  ∧ ∃ toml, build_cargo_toml self (fs.getcwd (st_fs st)) ext = Ok toml.
Proof.
  rewrite run_ext_eq. destruct (build_cargo_toml _ _ _) as [toml|e]; [|done].
  destruct (fs.exists_ (st_fs st) (path ext)) eqn:Hex; cbn [negb orb].
  - destruct (force self).
    + destruct (fs.write_file _ _ _) as [w|] eqn:Hw; [|done]. intros ?; simplify_eq. cbn.
      split_and!; eauto using fs_write_file_le, fs_write_file_exists.
    + intros ?; simplify_eq. cbn. split_and!; eauto using fs_le_refl.
  - destruct (fs.write_file _ _ _) as [w|] eqn:Hw; [|done]. intros ?; simplify_eq. cbn.
    split_and!; eauto using fs_write_file_le, fs_write_file_exists.
Qed.

Lemma ready_mono self w w' ext : fs_le w w' → ready self w ext → ready self w' ext.
Proof.
  intros Hle [Hex Hb]. split; [by eapply fs_exists_mono|].
  by rewrite (fs_getcwd_le _ _ Hle).
Qed.

Lemma loop_Ok self exts var st v st' :
  for_in exts (run_ext self) var st = (Ok v, st') →
  fs_le (st_fs st) (st_fs st') ∧ Forall (ready self (st_fs st')) exts.
Proof.
  revert var st. induction exts as [|ext exts IH]; intros var st.
  - rewrite for_in_nil. intros ?; simplify_eq. split; [apply fs_le_refl|constructor].
  - rewrite for_in_cons. destruct (run_ext self ext st) as [[[]|e] st1] eqn:Hext; [|done].
    intros [Hle Hall]%IH. apply run_ext_Ok in Hext as (Hle1 & Hex & Hb).
    split; [by eapply fs_le_trans|]. constructor; [|done].
    eapply ready_mono; [done|]. split; [done|]. by rewrite (fs_getcwd_le _ _ Hle1).
Qed.

Lemma loop_skip self exts var st :
  force self = false → Forall (ready self (st_fs st)) exts →
  for_in exts (run_ext self) var st =
    (Ok (match last exts with Some x => Some x | None => var end),
     add_log st ((λ ext, (WARN, msg_skipping ext)) <$> exts)).
Proof.
  intros Hf. revert var st. induction exts as [|ext exts IH]; intros var st Hall.
  - rewrite for_in_nil. cbn. unfold add_log. rewrite app_nil_r. by destruct st.
  - apply Forall_cons in Hall as [[Hex [toml Hb]] Hall].
    rewrite for_in_cons, run_ext_eq, Hb, Hex, Hf. cbn [negb orb].
    rewrite IH by done. f_equal.
    + rewrite last_cons. by destruct (last exts).
    + unfold add_log. cbn. by rewrite <- app_assoc.
Qed.

Lemma run_workspace_Ok self v st st' :
  run_workspace self v st = (Ok tt, st') →
  fs_le (st_fs st) (st_fs st')
  ∧ (create_workspace self && bool_decide (extensions self ≠ []) = true →
     ∃ toml, build_workspace_toml self (fs.getcwd (st_fs st)) = Ok toml).
Proof.
  rewrite run_workspace_eq. destruct (_ && _).
  - destruct (build_workspace_toml _ _) as [toml|]; [|done].
    destruct v as [ext|]; [|done].
    destruct (negb _ || _).
    + destruct (fs.write_file _ _ _) as [w|] eqn:Hw; [|done]. intros ?; simplify_eq. cbn.
      eauto using fs_write_file_le.
    + intros ?; simplify_eq. cbn. eauto using fs_le_refl.
  - intros ?; simplify_eq. split; [apply fs_le_refl|done].
Qed.
End run_facts.



(** C2. When the loop of [run] over the extensions has returned, the
    loop variable is the last extension. The workspace manifest is
    considered only if [create_workspace] is set and there are
    extensions: otherwise [run] ends there, with nothing written or
    logged. When it is considered, the existence check that decides
    between writing and skipping it looks at the manifest path of that
    last extension, while the file written is [Cargo.toml] in the
    workspace directory. *)
Theorem run_workspace_uses_last_extension {lower : StrLower}
    (self : tomlgen_rust) (st st' : state) (v : option RustExtension) :
  for_in (extensions self) (run_ext self) None st = (Ok v, st') →
  v = last (extensions self)
  ∧ run self st = run_workspace self (last (extensions self)) st'
  ∧ (create_workspace self && bool_decide (extensions self ≠ []) = false →
     run self st = (Ok tt, st'))
  ∧ (create_workspace self && bool_decide (extensions self ≠ []) = true →
     ∃ ext, last (extensions self) = Some ext
       ∧ ∀ toml, build_workspace_toml self (fs.getcwd (st_fs st')) = Ok toml →
           run self st =
             if negb (fs.exists_ (st_fs st') (path ext)) || force self then
               (log.info msg_creating_workspace;;
                os.write_file (os_path.join (workspace self) [py "Cargo.toml"])
                  (ConfigParser.write toml)) st'
             else log.warn msg_skipping_workspace st').
Proof.
  intros Hloop. pose proof (for_in_var _ _ _ _ _ _ Hloop) as Hv.
  assert (v = last (extensions self)) as -> by (by destruct (last _)).
  rewrite run_eq, Hloop. split_and!; [done..| |].
  - rewrite run_workspace_eq. by intros ->.
  - intros Hcw. apply andb_prop in Hcw as Hne. destruct Hne as [_ Hne].
    apply bool_decide_eq_true, last_is_Some in Hne as [ext Hext].
    exists ext. split; [done|]. intros toml Hb.
    rewrite run_workspace_eq, Hcw, Hb, Hext.
    destruct (negb _ || _); [|done].
    rewrite M_bind_eq. cbn. unfold os.write_file. cbn.
    by destruct (fs.write_file _ _ _).
Qed.

(** With a fresh project the loop writes the manifest of the extension,
    so that the check made for the workspace finds it and the workspace
    manifest is skipped although none exists. *)
Lemma run_workspace_uses_last_extension_witness :
  let self := demo.command true false in
  let st := demo.start demo.fresh in
  let st' := (for_in (extensions self) (run_ext (lower := ascii_lower) self) None st).2 in
  fs.exists_ (st_fs st') (path demo.ext) = true
  ∧ fs.exists_ (st_fs st') (os_path.join (workspace self) [py "Cargo.toml"]) = false
  ∧ run (lower := ascii_lower) self st = log.warn msg_skipping_workspace st'.
Proof.
  intros self st st'.
  assert (for_in (extensions self) (run_ext (lower := ascii_lower) self) None st
          = (Ok (Some demo.ext), st')) as Hloop by (vm_compute; reflexivity).
  destruct (run_workspace_uses_last_extension self st st' _ Hloop)
    as (_ & _ & _ & Hws).
  destruct Hws as (ext & Hext & Hrun); [vm_compute; reflexivity|].
  assert (ext = demo.ext) as -> by (by injection Hext).
  assert (fs.exists_ (st_fs st') (path demo.ext) = true) as Hex
    by (vm_compute; reflexivity).
  split_and!; [done|vm_compute; reflexivity|].
  assert (∃ toml, build_workspace_toml (lower := ascii_lower) self
                    (fs.getcwd (st_fs st')) = Ok toml) as [toml Hb]
    by (eexists; vm_compute; reflexivity).
  rewrite (Hrun toml Hb), Hex. reflexivity.
Defined.

(** ** Running twice *)

Section idempotence.
Context {lower : StrLower}.

(** What a second run needs of the first: every manifest is in place
    and every document can be built. *)
Lemma run_settles b self st st' :
  run (with_force b self) st = (Ok tt, st') →
  Forall (ready self (st_fs st')) (extensions self)
  ∧ (create_workspace self && bool_decide (extensions self ≠ []) = true →
     ∃ toml, build_workspace_toml self (fs.getcwd (st_fs st')) = Ok toml).
Proof.
  rewrite run_eq.
  destruct (for_in _ _ _ _) as [[v|e] st1] eqn:Hloop; [|done].
  intros (Hle & Hws)%run_workspace_Ok. apply loop_Ok in Hloop as [Hle1 Hall].
  split.
  - eapply Forall_impl; [exact Hall|]. intros ext Hr.
    by apply (ready_mono (with_force b self) _ _ _ Hle) in Hr.
  - intros Hcw. rewrite (fs_getcwd_le _ _ Hle). by apply Hws.
Qed.

Lemma run_skips self st :
  force self = false →
  Forall (ready self (st_fs st)) (extensions self) →
  (create_workspace self && bool_decide (extensions self ≠ []) = true →
   ∃ toml, build_workspace_toml self (fs.getcwd (st_fs st)) = Ok toml) →
  ∃ warnings,
    run self st = (Ok tt, add_log st warnings)
    ∧ Forall (λ entry, entry.1 = WARN) warnings.
Proof.
  intros Hf Hall Hws. rewrite run_eq, (loop_skip _ _ _ _ Hf Hall).
  rewrite run_workspace_eq. cbn [add_log st_fs].
  set (skipped := (λ ext, (WARN, msg_skipping ext)) <$> extensions self).
  assert (Forall (λ entry : level * pystr, entry.1 = WARN) skipped) as Hskipped.
  { apply Forall_fmap, Forall_true. done. }
  destruct (create_workspace self && _) eqn:Hcw.
  - destruct (Hws eq_refl) as [toml ->].
    apply andb_prop in Hcw as [_ Hne].
    apply bool_decide_eq_true, last_is_Some in Hne as [ext Hext]. rewrite Hext.
    assert (fs.exists_ (st_fs st) (path ext) = true) as ->.
    { apply last_Some in Hext as [exts Hexts]. rewrite Hexts in Hall.
      apply Forall_app in Hall as [_ Hall]. by apply Forall_singleton in Hall as [? _]. }
    rewrite Hf. cbn [negb orb].
    exists (skipped ++ [(WARN, msg_skipping_workspace)]). split.
    + unfold add_log. cbn. by rewrite <- app_assoc.
    + apply Forall_app. split; [done|]. by apply Forall_singleton.
  - by exists skipped.
Qed.

(** C8. If one run of the generator has returned, whatever its [force]
    flag, then a second run on the file system it left, with [force]
    unset and the same inputs, returns with the file system unchanged: it
    only adds warnings to the log, every write being skipped. *)
Theorem run_twice_no_force (b : bool) (self : tomlgen_rust) (st0 st1 : state) :
  run (with_force b self) st0 = (Ok tt, st1) →
  ∃ warnings,
    run (with_force false self) st1 = (Ok tt, add_log st1 warnings)
    ∧ Forall (λ entry, entry.1 = WARN) warnings.
Proof.
  intros [Hall Hws]%run_settles. by apply run_skips.
Qed.
End idempotence.

Lemma run_twice_no_force_witness :
  let self := demo.command true false in
  let st1 := (run (lower := ascii_lower) self (demo.start demo.fresh)).2 in
  st_fs st1 ≠ demo.fresh
  ∧ ∃ warnings,
      run (lower := ascii_lower) self st1 = (Ok tt, add_log st1 warnings)
      ∧ Forall (λ entry, entry.1 = WARN) warnings.
Proof.
  intros self st1. split.
  - intros Heq. apply (f_equal (λ w, fs.exists_ w (path demo.ext))) in Heq.
    vm_compute in Heq. discriminate.
  - apply (run_twice_no_force false self (demo.start demo.fresh) st1).
    vm_compute. reflexivity.
Defined.

(** ** The documents *)

Lemma result_bind_Ok {A B} (m : result A) (f : A → result B) (b : B) :
  m ≫= f = Ok b → ∃ a, m = Ok a ∧ f a = Ok b.
Proof. destruct m as [a|e]; [|done]. intros Hf. by exists a. Qed.

Section odict_more.
Context {V : Type}.
Implicit Types (d : list (pystr * V)) (k : pystr) (v : V).

Lemma odict_get_snoc_fresh k v d :
  k ∉ d.*1 → odict.get k (d ++ [(k, v)]) = Some v.
Proof.
  induction d as [|[k0 v0] d IH]; cbn.
  - by rewrite decide_True.
  - rewrite not_elem_of_cons. intros [Hne Hk]. rewrite decide_False by done. auto.
Qed.

Lemma odict_update_snoc items k v d :
  odict.update (items ++ [(k, v)]) d = odict.set k v (odict.update items d).
Proof. unfold odict.update. by rewrite foldl_snoc. Qed.

Lemma odict_update_app items1 items2 d :
  odict.update (items1 ++ items2) d = odict.update items2 (odict.update items1 d).
Proof. unfold odict.update. by rewrite foldl_app. Qed.

Lemma odict_update_NoDup items d : NoDup d.*1 → NoDup (odict.update items d).*1.
Proof.
  induction items as [|[k v] items IH] using rev_ind; [done|].
  rewrite odict_update_snoc. intros. by apply odict_set_NoDup, IH.
Qed.

(** The last write wins. *)
Lemma odict_update_get items k v d :
  NoDup items.*1 → (k, v) ∈ items → odict.get k (odict.update items d) = Some v.
Proof.
  induction items as [|[k0 v0] items IH] using rev_ind.
  - by intros _ ?%elem_of_nil.
  - rewrite fmap_app, odict_update_snoc. cbn.
    intros (Hnd & Hk0 & _)%NoDup_app [Hin|Hin%list_elem_of_singleton]%elem_of_app.
    + rewrite odict_get_set_ne; [by apply IH|]. intros ->.
      apply (Hk0 k); [|left]. apply list_elem_of_fmap. by exists (k, v).
    + injection Hin as -> ->. apply odict_get_set_eq.
Qed.

Lemma odict_filter_absent k d : k ∉ d.*1 → filter (λ kv, kv.1 = k) d = [].
Proof.
  induction d as [|[k0 v0] d IH]; [done|]. cbn [fmap list_fmap fst].
  rewrite not_elem_of_cons. intros [Hne Hk].
  rewrite filter_cons_False by (cbn; congruence). auto.
Qed.

Lemma odict_filter_key k v d :
  NoDup d.*1 → odict.get k d = Some v → filter (λ kv, kv.1 = k) d = [(k, v)].
Proof.
  induction d as [|[k0 v0] d IH]; [done|].
  intros [Hk0 Hd]%NoDup_cons. rewrite filter_cons. cbn [odict.get fst].
  destruct (decide (k0 = k)) as [->|Hne].
  - intros [= ->]. f_equal. by apply odict_filter_absent.
  - auto.
Qed.
End odict_more.

Tactic Notation "inv_bind" hyp(H) "as" ident(a) ident(Ha) :=
  apply result_bind_Ok in H as (a & Ha & H).
Tactic Notation "inv_bind" hyp(H) :=
  let a := fresh "a" in let Ha := fresh "Ha" in inv_bind H as a Ha.

Section parser_facts.
Context {lower : StrLower}.
Implicit Types (p : ConfigParser.t) (s k v : pystr).

Lemma add_section_Ok s p p' :
  ConfigParser.add_section s p = Ok p' →
  (s ∉ ConfigParser.sections p)
  ∧ ConfigParser._sections p' = ConfigParser._sections p ++ [(s, [])]
  ∧ ConfigParser._defaults p' = ConfigParser._defaults p.
Proof.
  unfold ConfigParser.add_section. case_bool_decide; [done|].
  case_bool_decide as Hs; [done|]. intros ?; simplify_eq. cbn.
  split; [|done]. unfold ConfigParser.sections. by rewrite <- odict_get_is_Some.
Qed.

Lemma add_section_sections s p p' :
  ConfigParser.add_section s p = Ok p' →
  ConfigParser.sections p' = ConfigParser.sections p ++ [s].
Proof.
  intros (_ & Hs & _)%add_section_Ok. unfold ConfigParser.sections.
  by rewrite Hs, fmap_app.
Qed.

Lemma before_set_Ok v v' :
  (if bool_decide (v ≠ []) then ConfigParser.before_set v else Ok v) = Ok v' →
  v' = v.
Proof.
  unfold ConfigParser.before_set. repeat case_bool_decide; congruence.
Qed.

(** Setting an option of a named section touches that section only. *)
Lemma set_Ok s k v p p' :
  s ≠ [] → s ≠ ConfigParser.default_section →
  ConfigParser.set s k v p = Ok p' →
  ∃ d, odict.get s (ConfigParser._sections p) = Some d
       ∧ ConfigParser._sections p'
         = odict.set s (odict.set (ConfigParser.optionxform k) v d)
             (ConfigParser._sections p)
       ∧ ConfigParser._defaults p' = ConfigParser._defaults p.
Proof.
  intros Hs1 Hs2. unfold ConfigParser.set. intros H. inv_bind H.
  rewrite !bool_decide_eq_false_2 in H by done. cbn [orb] in H.
  destruct (odict.get s _) as [d|]; [|done]. simplify_eq. cbn.
  apply before_set_Ok in Ha as ->. eauto.
Qed.

Lemma set_sections s k v p p' :
  ConfigParser.set s k v p = Ok p' →
  ConfigParser.sections p' = ConfigParser.sections p
  ∧ (s ≠ [] → s ≠ ConfigParser.default_section →
     ConfigParser._defaults p' = ConfigParser._defaults p).
Proof.
  destruct (decide (s = [])) as [->|Hs1];
    [|destruct (decide (s = ConfigParser.default_section)) as [->|Hs2]].
  - unfold ConfigParser.set. intros H. inv_bind H.
    rewrite (bool_decide_eq_true_2 ([] = [])) in H by done. cbn [orb] in H.
    simplify_eq. by split.
  - unfold ConfigParser.set. intros H. inv_bind H.
    rewrite (bool_decide_eq_true_2 (_ = ConfigParser.default_section)) in H by done.
    rewrite orb_true_r in H. simplify_eq. by split.
  - intros (d & Hd & Hp' & Hdef)%set_Ok; [|done..]. split; [|done].
    unfold ConfigParser.sections. rewrite Hp'.
    apply odict_set_keys_present, odict_get_is_Some. by rewrite Hd.
Qed.

Lemma for_result_snoc {A B} (l : list A) (x : A) (body : B → A → result B) acc :
  for_result (l ++ [x]) body acc = for_result l body acc ≫= λ acc, body acc x.
Proof.
  revert acc. induction l as [|y l IH]; intros acc; cbn.
  - by destruct (body acc x).
  - destruct (body acc y); [apply IH|done].
Qed.

(** The loop over the dependencies fills one section, in order. *)
Lemma set_all_Ok s items p p' d :
  s ≠ [] → s ≠ ConfigParser.default_section →
  for_result items (λ p kv, ConfigParser.set s kv.1 kv.2 p) p = Ok p' →
  odict.get s (ConfigParser._sections p) = Some d →
  odict.get s (ConfigParser._sections p')
    = Some (odict.update (prod_map ConfigParser.optionxform id <$> items) d)
  ∧ ConfigParser.sections p' = ConfigParser.sections p
  ∧ ConfigParser._defaults p' = ConfigParser._defaults p.
Proof.
  intros Hs1 Hs2. revert p'. induction items as [|[k v] items IH] using rev_ind;
    intros p'.
  - cbn. intros ?; by simplify_eq.
  - rewrite for_result_snoc. intros H Hd. inv_bind H.
    destruct (IH _ Ha Hd) as (Hget & Hsec & Hdef).
    pose proof (set_sections _ _ _ _ _ H) as [Hsec' Hdef'].
    apply set_Ok in H as (d' & Hd' & Hp' & _); [|done..].
    rewrite Hp', odict_get_set_eq, fmap_app.
    change (prod_map ConfigParser.optionxform id <$> [(k, v)])
      with [(ConfigParser.optionxform k, v)].
    rewrite odict_update_snoc.
    split_and!; [|congruence|rewrite Hdef'; done]. cbn [fst snd]. congruence.
Qed.
End parser_facts.

Section documents.
Context {lower : StrLower}.

Lemma build_cargo_toml_Ok self cwd ext toml :
  build_cargo_toml self cwd ext = Ok toml →
  ConfigParser.sections toml = [py "package"; py "lib"; py "dependencies"]
  ∧ ConfigParser._defaults toml = []
  ∧ odict.get (py "dependencies") (ConfigParser._sections toml)
    = Some (odict.update (prod_map ConfigParser.optionxform id
                            <$> iter_dependencies self (Some ext)) []).
Proof.
  unfold build_cargo_toml. intros H.
  inv_bind H as t1 H1. inv_bind H as t2 H2. inv_bind H as t3 H3.
  inv_bind H as t4 H4. inv_bind H as t5 H5. inv_bind H as t6 H6.
  inv_bind H as t7 H7. inv_bind H as t8 H8. inv_bind H as t9 H9.
  inv_bind H as libpath Hlibpath. inv_bind H as t10 H10.
  inv_bind H as t11 H11.
  assert (ConfigParser.sections t6 = ConfigParser.sections t5
          ∧ ConfigParser._defaults t6 = ConfigParser._defaults t5) as [Hs6 Hd6].
  { destruct (create_workspace self); [|by simplify_eq].
    inv_bind H6. apply set_sections in H6 as [? Hd]. split; [done|].
    by apply Hd. }
  clear H6.
  pose proof H11 as (Hfresh & Hs11 & _)%add_section_Ok.
  eapply set_all_Ok in H as (Hget & Hs & Hd); [|done|done|].
  2:{ rewrite Hs11. by apply odict_get_snoc_fresh. }
  repeat match goal with
         | H : ConfigParser.add_section _ _ = Ok _ |- _ =>
             let Hd := fresh "Hd" in
             pose proof H as (_ & _ & Hd)%add_section_Ok;
             apply add_section_sections in H
         | H : ConfigParser.set _ _ _ _ = Ok _ |- _ =>
             let Hs := fresh "Hs" in let Hd := fresh "Hd" in
             apply set_sections in H as [Hs Hd];
             specialize (Hd ltac:(done) ltac:(done))
         end.
  split_and!; [|change [] with (ConfigParser._defaults ConfigParser.new); congruence|done].
  repeat match goal with
         | Hx : ConfigParser.sections _ = _ |- _ => rewrite Hx
         end.
  done.
Qed.

Lemma build_workspace_toml_Ok self cwd toml :
  build_workspace_toml self cwd = Ok toml →
  ConfigParser.sections toml = [py "workspace"]
  ∧ ConfigParser._defaults toml = [].
Proof.
  unfold build_workspace_toml. intros H.
  inv_bind H as members Hmembers. inv_bind H as t1 H1. inv_bind H as t2 H2.
  assert (toml = t2) as -> by (by injection H). clear H.
  pose proof H1 as (_ & _ & Hd1)%add_section_Ok.
  apply add_section_sections in H1.
  apply set_sections in H2 as [Hs2 Hd2]. split.
  - by rewrite Hs2, H1.
  - by rewrite Hd2, Hd1.
Qed.
End documents.

(** C7. Every document that [build_cargo_toml] returns has exactly one
    section [package] and exactly one section [lib] (its sections are
    [package], [lib] and [dependencies], and it has no defaults); every
    document that [build_workspace_toml] returns has the section
    [workspace] and no other section, nor any defaults. *)
Theorem manifest_sections {lower : StrLower} (self : tomlgen_rust) (cwd : pystr) :
  (∀ ext toml, build_cargo_toml self cwd ext = Ok toml →
     length (filter (λ s, s = py "package") (ConfigParser.sections toml)) = 1%nat
     ∧ length (filter (λ s, s = py "lib") (ConfigParser.sections toml)) = 1%nat
     ∧ ConfigParser.sections toml = [py "package"; py "lib"; py "dependencies"]
     ∧ ConfigParser._defaults toml = [])
  ∧ (∀ toml, build_workspace_toml self cwd = Ok toml →
       ConfigParser.sections toml = [py "workspace"]
       ∧ ConfigParser._defaults toml = []).
Proof.
  split.
  - intros ext toml (Hs & Hd & _)%build_cargo_toml_Ok. rewrite Hs. done.
  - intros toml. apply build_workspace_toml_Ok.
Qed.

Lemma manifest_sections_witness :
  let self := demo.command true false in
  let cwd := fs.getcwd demo.fresh in
  (∃ toml, build_cargo_toml (lower := ascii_lower) self cwd demo.ext = Ok toml
     ∧ ConfigParser.sections toml = [py "package"; py "lib"; py "dependencies"])
  ∧ (∃ toml, build_workspace_toml (lower := ascii_lower) self cwd = Ok toml
       ∧ ConfigParser.sections toml = [py "workspace"]).
Proof.
  intros self cwd.
  destruct (manifest_sections (lower := ascii_lower) self cwd) as [Hext Hws]. split.
  - destruct (build_cargo_toml (lower := ascii_lower) self cwd demo.ext)
      as [toml|e] eqn:Hb; [|vm_compute in Hb; discriminate].
    exists toml. split; [done|]. by apply (Hext demo.ext toml).
  - destruct (build_workspace_toml (lower := ascii_lower) self cwd)
      as [toml|e] eqn:Hb; [|vm_compute in Hb; discriminate].
    exists toml. split; [done|]. by apply (Hws toml).
Defined.

(** C5. Let the configuration have the global section
    [tomlgen_rust.dependencies] and the section of the extension,
    [tomlgen_rust.dependencies.<name>], as the parser keeps them: no
    option twice in a section, option names in the form [optionxform]
    gives them. A dependency that is an option of both sections occurs
    exactly once in the [dependencies] section of the document built for
    the extension, with the value of the section of the extension. *)
Theorem dependencies_merge {lower : StrLower} (self : tomlgen_rust) (cwd : pystr)
    (ext : RustExtension) (toml : ConfigParser.t)
    (global_items ext_items : list (pystr * pystr)) (dep v_global v_ext : pystr) :
  build_cargo_toml self cwd ext = Ok toml →
  cfg self !! (get_command_name ++ py ".dependencies") = Some global_items →
  cfg self !! (get_command_name ++ py ".dependencies." ++ name ext) = Some ext_items →
  (dep, v_global) ∈ global_items →
  (dep, v_ext) ∈ ext_items →
  NoDup ext_items.*1 →
  Forall (λ kv, ConfigParser.optionxform kv.1 = kv.1) ext_items →
  ∃ deps,
    odict.get (py "dependencies") (ConfigParser._sections toml) = Some deps
    ∧ filter (λ kv, kv.1 = dep) deps = [(dep, v_ext)].
Proof.
  intros (_ & _ & Hdeps)%build_cargo_toml_Ok Hg He _ Hin Hnd Hfix.
  eexists. split; [exact Hdeps|].
  unfold iter_dependencies. cbn [fmap list_fmap app mjoin list_join].
  rewrite Hg, He, app_nil_r, fmap_app, odict_update_app.
  assert (prod_map ConfigParser.optionxform id <$> ext_items = ext_items) as ->.
  { rewrite <- (list_fmap_id ext_items) at 2. apply Forall_fmap_ext_1.
    eapply Forall_impl; [exact Hfix|]. intros [k v] Hk. cbn in *. by rewrite Hk. }
  apply odict_filter_key.
  - by apply odict_update_NoDup, odict_update_NoDup, NoDup_nil.
  - by apply odict_update_get.
Qed.

Lemma dependencies_merge_witness :
  ∃ toml deps,
    build_cargo_toml (lower := ascii_lower) (demo.command false false)
      (fs.getcwd demo.fresh) demo.ext = Ok toml
    ∧ odict.get (py "dependencies") (ConfigParser._sections toml) = Some deps
    ∧ filter (λ kv, kv.1 = py "libc") deps = [(py "libc", quote (py "2"))].
Proof.
  destruct (build_cargo_toml (lower := ascii_lower) (demo.command false false)
              (fs.getcwd demo.fresh) demo.ext) as [toml|e] eqn:Hb;
    [|vm_compute in Hb; discriminate].
  destruct (dependencies_merge (lower := ascii_lower) (demo.command false false)
              (fs.getcwd demo.fresh) demo.ext toml
              [(py "pyo3", py "{ version = '0.1' }"); (py "libc", quote (py "1"))]
              [(py "libc", quote (py "2"))]
              (py "libc") (quote (py "1")) (quote (py "2")) Hb)
    as (deps & Hdeps & Hfilter).
  - vm_compute. reflexivity.
  - vm_compute. reflexivity.
  - right. left.
  - left.
  - apply NoDup_singleton.
  - apply Forall_singleton. vm_compute. reflexivity.
  - by exists toml, deps.
Defined.

(** ** The list of authors *)

Section str_facts.
Implicit Types (s t : pystr) (c : char) (drop : char → bool).

Lemma str_lstrip_spec drop s :
  ∃ pre, s = pre ++ Str.lstrip drop s
         ∧ Forall (λ c, drop c = true) pre
         ∧ ∀ c, head (Str.lstrip drop s) = Some c → drop c = false.
Proof.
  induction s as [|x s (pre & Hs & Hpre & Hhd)].
  { exists []. split_and!; [done|constructor|]. intros c. cbn. done. }
  cbn. destruct (drop x) eqn:Hx.
  - exists (x :: pre). split_and!; [cbn; congruence|by constructor|done].
  - exists []. split_and!; [done|constructor|]. cbn. congruence.
Qed.

Lemma str_rstrip_spec drop s :
  ∃ post, s = Str.rstrip drop s ++ post
          ∧ Forall (λ c, drop c = true) post
          ∧ ∀ c, last (Str.rstrip drop s) = Some c → drop c = false.
Proof.
  unfold Str.rstrip.
  destruct (str_lstrip_spec drop (reverse s)) as (pre & Hs & Hpre & Hhd).
  exists (reverse pre). split_and!.
  - rewrite <- reverse_app, <- Hs. by rewrite reverse_involutive.
  - by apply Forall_reverse.
  - intros c. rewrite last_reverse. apply Hhd.
Qed.

Lemma str_strip_spec drop s : stripped_of drop s (Str.strip drop s).
Proof.
  unfold Str.strip.
  destruct (str_lstrip_spec drop s) as (pre & Hs & Hpre & Hhd).
  destruct (str_rstrip_spec drop (Str.lstrip drop s)) as (post & Ht & Hpost & Hlast).
  exists pre, post. split_and!; [by rewrite <- Ht|done..| |done].
  intros c Hc. apply Hhd. rewrite Ht.
  destruct (Str.rstrip drop (Str.lstrip drop s)); [done|]. done.
Qed.

Lemma str_split_cons c x s :
  Str.split c (x :: s) =
    if decide (x = c) then [] :: Str.split c s
    else match Str.split c s with
         | [] => [[x]]
         | w :: ws => (x :: w) :: ws
         end.
Proof. done. Qed.

Lemma str_join_cons sep (p : pystr) (q : pystr) parts :
  Str.join sep (p :: q :: parts) = p ++ sep ++ Str.join sep (q :: parts).
Proof. done. Qed.

Lemma str_split_spec c s : pieces_of c s (Str.split c s).
Proof.
  induction s as [|x s (Hjoin & Hne & Hall)].
  - split_and!; [done..|]. constructor; [apply not_elem_of_nil|constructor].
  - rewrite str_split_cons. destruct (decide (x = c)) as [->|Hx].
    + split_and!; [|done|].
      * destruct (Str.split c s) as [|w ws]; [done|].
        rewrite str_join_cons, Hjoin. done.
      * constructor; [apply not_elem_of_nil|done].
    + destruct (Str.split c s) as [|w ws]; [done|]. split_and!; [|done|].
      * destruct ws as [|w' ws]; [cbn in *; by f_equal|].
        rewrite str_join_cons in *. cbn. by f_equal.
      * apply Forall_cons in Hall as [Hw Hws]. constructor; [|done].
        rewrite not_elem_of_cons. split; [congruence|done].
Qed.
End str_facts.


(** ** Discovery *)

Lemma node_Forall_ind (P : node → Prop) :
  (∀ c, P (File c)) →
  (∀ es, Forall (λ e, P e.2) es → P (Dir es)) →
  ∀ n, P n.
Proof.
  intros Hfile Hdir. fix IH 1. intros [c|es]; [apply Hfile|].
  apply Hdir. induction es as [|[k n] es IHes]; constructor; [apply IH|apply IHes].
Qed.

Section discovery_facts.
Implicit Types (w : filesystem) (st : state) (p top base libfile : pystr).

Lemma join2_nonempty a b : a ≠ [] → os_path.join2 a b ≠ [].
Proof.
  intros Ha. unfold os_path.join2.
  destruct (Str.startswith b _) eqn:Hb.
  - destruct b; [done|done].
  - destruct (_ || _); by destruct a.
Qed.

Lemma walk_node_bases top n :
  top ≠ [] → Forall (λ visit, visit.1.1 ≠ []) (fs.walk_node top n).
Proof.
  revert top. induction n as [c|es IH] using node_Forall_ind; intros top Htop.
  - constructor.
  - cbn [fs.walk_node]. constructor; [done|].
    apply Forall_forall. intros visit (visits & Hin & Hvisits)%list_elem_of_join.
    apply list_elem_of_fmap in Hvisits as (e & -> & He).
    rewrite Forall_forall in IH. specialize (IH e He (os_path.join top [e.1])).
    rewrite Forall_forall in IH. apply IH; [|done].
    by apply join2_nonempty.
Qed.

Lemma resolve_nonempty w p l : fs.resolve w p = Some l → p ≠ [].
Proof. unfold fs.resolve. by case_bool_decide. Qed.

Lemma walk_bases w top : Forall (λ visit, visit.1.1 ≠ []) (fs.walk w top).
Proof.
  unfold fs.walk. destruct (fs.resolve w top) as [l|] eqn:Hr; [|constructor].
  destruct (fs.lookup _ _); [|constructor].
  eapply walk_node_bases, resolve_nonempty, Hr.
Qed.

Lemma relpath_Ok cwd p start :
  p ≠ [] → ∃ rel, os_path.relpath cwd p start = Ok rel.
Proof.
  intros Hp. unfold os_path.relpath. rewrite bool_decide_eq_false_2 by done.
  cbv zeta. destruct (_ ++ _); eauto.
Qed.
End discovery_facts.

Section discovery.
Implicit Types (st : state) (libfile : pystr) (acc : list RustExtension).

Lemma for_acc_cons {A B} (x : A) l (body : B → A → M B) (b : B) st :
  for_acc (x :: l) body b st =
    match body b x st with
    | (Ok acc', st') => for_acc l body acc' st'
    | (Raise e, st') => (Raise e, st')
    end.
Proof. done. Qed.

(** The inner loop of [find_rust_extensions], over the directories
    below one root. *)
Lemma scan_visits st libfile visits acc :
  Forall (λ visit, visit.1.1 ≠ []) visits →
  ∃ exts,
    for_acc visits
      (λ extensions '(base, dirs, files),
         if bool_decide (libfile ∈ files) then
           rel ← os.path_relpath base;
           let dotpath := Str.replace os_path.sep (py ".") rel in
           let tomlpath := os_path.join base [py "Cargo.toml"] in
           let ext := RustExtension_new dotpath tomlpath in
           let ext := set_libfile ext (os_path.join base [libfile]) in
           mret (extensions ++ [ext])
         else mret extensions) acc st
    = (Ok (acc ++ exts), st)
    ∧ Forall2 (extension_of (st_fs st) libfile) exts
        (filter (λ visit, libfile ∈ visit.2) visits).
Proof.
  intros Hbases. revert acc.
  induction Hbases as [|[[base dirs] files] visits Hbase _ IH]; intros acc.
  - exists []. split; [by rewrite app_nil_r|constructor].
  - rewrite for_acc_cons, filter_cons. cbn [snd fst] in *.
    case_bool_decide as Hin.
    + destruct (relpath_Ok (fs.getcwd (st_fs st)) base os_path.curdir Hbase)
        as [rel Hrel].
      rewrite M_bind_eq. unfold os.path_relpath. rewrite M_bind_eq.
      cbn [os.getcwd]. unfold lift. rewrite Hrel.
      destruct (IH (acc ++ [set_libfile
                   (RustExtension_new (Str.replace os_path.sep (py ".") rel)
                      (os_path.join base [py "Cargo.toml"]))
                   (os_path.join base [libfile])])) as (exts & Hloop & Hexts).
      eexists (_ :: exts). split.
      * rewrite <- app_assoc in Hloop. exact Hloop.
      * rewrite decide_True by done. constructor; [|done]. by exists rel.
    + destruct (IH acc) as (exts & Hloop & Hexts). exists exts.
      rewrite decide_False by done. split; [|done]. exact Hloop.
Qed.

Lemma scan_roots st libfile roots acc :
  ∃ exts,
    for_acc roots
      (λ extensions directory,
         visits ← os.walk directory;
         for_acc visits
           (λ extensions '(base, dirs, files),
              if bool_decide (libfile ∈ files) then
                rel ← os.path_relpath base;
                let dotpath := Str.replace os_path.sep (py ".") rel in
                let tomlpath := os_path.join base [py "Cargo.toml"] in
                let ext := RustExtension_new dotpath tomlpath in
                let ext := set_libfile ext (os_path.join base [libfile]) in
                mret (extensions ++ [ext])
              else mret extensions) extensions) acc st
    = (Ok (acc ++ exts), st)
    ∧ Forall2 (extension_of (st_fs st) libfile) exts
        (filter (λ visit, libfile ∈ visit.2) (mjoin (fs.walk (st_fs st) <$> roots))).
Proof.
  revert acc. induction roots as [|root roots IH]; intros acc.
  - exists []. split; [by rewrite app_nil_r|constructor].
  - rewrite for_acc_cons.
    destruct (scan_visits st libfile (fs.walk (st_fs st) root) acc (walk_bases _ _))
      as (exts1 & H1 & Hexts1).
    match goal with
    | |- ∃ _, match ?m with _ => _ end = _ ∧ _ =>
        replace m with (Ok (acc ++ exts1), st) by (symmetry; exact H1)
    end.
    destruct (IH (acc ++ exts1)) as (exts2 & H2 & Hexts2).
    exists (exts1 ++ exts2). split; [rewrite app_assoc; exact H2|].
    cbn [fmap list_fmap mjoin list_join]. rewrite filter_app.
    by apply Forall2_app.
Qed.

Lemma find_rust_extensions_spec st directories libfile :
  ∃ exts,
    find_rust_extensions directories libfile st = (Ok exts, st)
    ∧ Forall2 (extension_of (st_fs st) libfile) exts
        (filter (λ visit, libfile ∈ visit.2) (visited (st_fs st) directories)).
Proof.
  unfold find_rust_extensions, visited. rewrite M_bind_eq.
  case_bool_decide.
  - apply (scan_roots st libfile directories []).
  - apply (scan_roots st libfile [fs.getcwd (st_fs st)] []).
Qed.
End discovery.

Lemma Forall2_filter_length {A B} (R : A → B → Prop) (P : A → Prop) (Q : B → Prop)
    `{!∀ x, Decision (P x), !∀ y, Decision (Q y)} (l : list A) (k : list B) :
  (∀ x y, R x y → P x ↔ Q y) → Forall2 R l k →
  length (filter P l) = length (filter Q k).
Proof.
  intros HR Hlk. induction Hlk as [|x y l k Hxy _ IH]; [done|].
  rewrite !filter_cons. destruct (decide (P x)) as [HP|HP].
  - rewrite decide_True by (by apply (HR x y)). cbn. by rewrite IH.
  - rewrite decide_False by (by rewrite <- (HR x y)). done.
Qed.

Lemma filter_fiber_NoDup {A B} `{EqDecision B} (f : A → B) (x : A) (l : list A) :
  NoDup (f <$> l) → x ∈ l → length (filter (λ y, f y = f x) l) = 1%nat.
Proof.
  induction l as [|y l IH]; [by intros _ ?%elem_of_nil|].
  cbn [fmap list_fmap]. intros [Hy Hl]%NoDup_cons [->|Hx]%elem_of_cons.
  - rewrite filter_cons_True by done. cbn. f_equal.
    destruct (filter _ l) as [|z zs] eqn:Hz; [done|]. exfalso.
    assert (z ∈ filter (λ y', f y' = f y) l) as [Hfz Hin]%list_elem_of_filter
      by (rewrite Hz; left).
    apply Hy. rewrite <- Hfz. apply list_elem_of_fmap. by exists z.
  - rewrite filter_cons_False; [by apply IH|]. intros Hfy. apply Hy.
    rewrite Hfy. apply list_elem_of_fmap. by exists x.
Qed.






(** * Further properties *)

Section fs_pointwise.
Implicit Types (w : filesystem) (es : list (pystr * node)) (l : loc) (p c k : pystr).

Lemma file_at_nil es : file_at es [] = None.
Proof. done. Qed.

Lemma file_at_cons es k l :
  file_at es (k :: l) =
    match odict.get k es with
    | Some (Dir es') => file_at es' l
    | Some (File c) => if decide (l = []) then Some c else None
    | None => None
    end.
Proof.
  unfold file_at. cbn. destruct (odict.get k es) as [[?|?]|]; [|done..].
  by destruct (decide (l = [])).
Qed.

(** A write changes no directory. *)
Lemma fs_write_at_is_dir_eq es l c l' :
  fs.is_dir es l = false →
  fs.is_dir (fs.write_at es l c) l' = fs.is_dir es l'.
Proof.
  revert es l'. induction l as [|k l IH]; intros es l' Hl; [done|].
  destruct l' as [|k' l']; [done|].
  rewrite fs_is_dir_cons in Hl. rewrite !fs_is_dir_cons.
  destruct l as [|k1 l].
  - cbn [fs.write_at]. destruct (decide (k = k')) as [->|Hne].
    + rewrite odict_get_set_eq.
      destruct (odict.get k' es) as [[?|?]|]; [done| |done]. cbn in Hl. done.
    + by rewrite odict_get_set_ne.
  - cbn [fs.write_at]. destruct (odict.get k es) as [[?|es']|] eqn:Hk; [done| |done].
    destruct (decide (k = k')) as [->|Hne].
    + rewrite odict_get_set_eq, Hk. by apply IH.
    + by rewrite odict_get_set_ne.
Qed.

(** A write into a directory changes the file at its position only. *)
Lemma fs_write_at_file_at es l k c l' :
  fs.is_dir es l = true → fs.is_dir es (l ++ [k]) = false →
  file_at (fs.write_at es (l ++ [k]) c) l'
  = if decide (l' = l ++ [k]) then Some c else file_at es l'.
Proof.
  revert es l'. induction l as [|k0 l IH]; intros es l' Hl Hlk.
  - cbn [app] in *. rewrite fs_is_dir_cons in Hlk. cbn [fs.write_at].
    destruct l' as [|k' l']; [done|]. rewrite !file_at_cons.
    destruct (decide (k = k')) as [->|Hne].
    + rewrite odict_get_set_eq.
      destruct (odict.get k' es) as [[?|?]|]; [|by cbn in Hlk|];
        repeat case_decide; simplify_eq; done.
    + rewrite odict_get_set_ne by done.
      destruct (decide (k' :: l' = [k])); [congruence|done].
  - rewrite fs_is_dir_cons in Hl. cbn [app] in *. rewrite fs_is_dir_cons in Hlk.
    destruct (odict.get k0 es) as [[?|es']|] eqn:Hk0; [done| |done].
    assert (fs.write_at es (k0 :: l ++ [k]) c
            = odict.set k0 (Dir (fs.write_at es' (l ++ [k]) c)) es) as ->.
    { cbn [fs.write_at]. rewrite Hk0. by destruct l. }
    destruct l' as [|k' l']; [done|]. rewrite !file_at_cons.
    destruct (decide (k0 = k')) as [->|Hne].
    + rewrite odict_get_set_eq, Hk0, IH by done.
      repeat case_decide; simplify_eq; done.
    + rewrite odict_get_set_ne by done.
      destruct (decide (k' :: l' = k0 :: l ++ [k])); [congruence|done].
Qed.

Lemma fs_lookup_is_Some es l :
  is_Some (fs.lookup es l) ↔ fs.is_dir es l = true ∨ is_Some (file_at es l).
Proof.
  unfold fs.is_dir, file_at. destruct (fs.lookup es l) as [[c|es']|].
  - split; [right; by eexists|by eexists].
  - split; [by left|by eexists].
  - split; [by intros []|]. intros [?|[]]; done.
Qed.

Lemma same_dirs_refl w : same_dirs w w.
Proof. done. Qed.

Lemma same_dirs_trans w1 w2 w3 : same_dirs w1 w2 → same_dirs w2 w3 → same_dirs w1 w3.
Proof.
  intros [Hc Hd] [Hc' Hd']. split; [congruence|]. intros l. by rewrite Hd', Hd.
Qed.

Lemma same_dirs_sym w1 w2 : same_dirs w1 w2 → same_dirs w2 w1.
Proof. intros [Hc Hd]. split; [done|]. intros l. by rewrite Hd. Qed.

Lemma fs_step_same_dirs es es' cur comp :
  (∀ l, fs.is_dir es' l = fs.is_dir es l) → fs.step es' cur comp = fs.step es cur comp.
Proof. intros Hd. unfold fs.step. destruct cur as [l|]; [|done]. by rewrite Hd. Qed.

Lemma fs_resolve_same_dirs w w' p : same_dirs w w' → fs.resolve w' p = fs.resolve w p.
Proof.
  intros [Hc Hd]. unfold fs.resolve. case_bool_decide; [done|]. rewrite <- Hc.
  generalize (Some (if os_path.isabs p then [] else fs_cwd w)).
  induction (Str.split os_path.sep p) as [|comp comps IH]; intros cur; [done|].
  cbn. by rewrite (fs_step_same_dirs _ _ _ _ Hd), IH.
Qed.

Lemma fs_getcwd_same_dirs w w' : same_dirs w w' → fs.getcwd w' = fs.getcwd w.
Proof. intros [Hc _]. unfold fs.getcwd. by rewrite Hc. Qed.

Lemma fs_read_file_at w p :
  fs.read w p = fs.resolve w p ≫= file_at (fs_root w).
Proof. unfold fs.read, file_at. by destruct (fs.resolve w p). Qed.

(** File systems with the same directories and files look the same
    through every path. *)
Lemma same_files_observations w w' p :
  same_files w w' →
  fs.read w' p = fs.read w p
  ∧ fs.exists_ w' p = fs.exists_ w p
  ∧ fs.writable w' p = fs.writable w p.
Proof.
  intros [Hd Hf]. pose proof (fs_resolve_same_dirs _ _ p Hd) as Hr.
  destruct Hd as [Hc Hd]. split_and!.
  - rewrite !fs_read_file_at, Hr. destruct (fs.resolve w p); [apply Hf|done].
  - unfold fs.exists_. rewrite Hr. destruct (fs.resolve w p) as [l|]; [|done].
    apply bool_decide_ext. by rewrite !fs_lookup_is_Some, Hd, Hf.
  - unfold fs.writable. rewrite Hr. destruct (fs.resolve w p); [|done]. by rewrite Hd.
Qed.

(** What [open(p, 'w')] and the write do when they succeed. *)
Lemma fs_write_file_effect w p c w' :
  fs.write_file w p c = Ok w' →
  ∃ l, fs.resolve w p = Some l
    ∧ fs.is_dir (fs_root w) l = false
    ∧ same_dirs w w'
    ∧ ∀ l', file_at (fs_root w') l'
            = if decide (l' = l) then Some c else file_at (fs_root w) l'.
Proof.
  intros (l & Hr & Hd & ->)%fs_write_file_Ok. exists l. split_and!; [done..| |].
  - split; [done|]. intros l'. cbn. by apply fs_write_at_is_dir_eq.
  - intros l'. cbn.
    destruct (fs_resolve_parent _ _ _ Hr) as [?|(l0 & k & -> & Hl0)]; [congruence|].
    by apply fs_write_at_file_at.
Qed.

Lemma fs_write_file_same_dirs w w' p c :
  same_dirs w w' →
  fs.write_file w' p c = Raise OSError ↔ fs.write_file w p c = Raise OSError.
Proof.
  intros Hd. unfold fs.write_file. rewrite (fs_resolve_same_dirs _ _ p Hd).
  destruct Hd as [_ Hd]. destruct (fs.resolve w p) as [l|]; [|done].
  rewrite Hd. by destruct (fs.is_dir (fs_root w) l).
Qed.
End fs_pointwise.

Section overlay.
Implicit Types (W : list (loc * pystr)) (l : loc) (v : option pystr).

Lemma overlay_at_cons W (w : loc * pystr) l v :
  overlay_at (w :: W) l v = overlay_at W l (if decide (w.1 = l) then Some w.2 else v).
Proof. done. Qed.

Lemma overlay_at_app W1 W2 l v :
  overlay_at (W1 ++ W2) l v = overlay_at W2 l (overlay_at W1 l v).
Proof. unfold overlay_at. by rewrite foldl_app. Qed.

(** The writes either leave a position alone or decide what it holds. *)
Lemma overlay_at_cases W l :
  (∀ v, overlay_at W l v = v) ∨ (∃ c, l ∈ W.*1 ∧ ∀ v, overlay_at W l v = Some c).
Proof.
  induction W as [|[l0 c0] W IH]; [by left|].
  destruct IH as [Hid|(c & Hin & Hc)].
  - destruct (decide (l0 = l)) as [->|Hne].
    + right. exists c0. split; [left|]. intros v.
      rewrite overlay_at_cons, Hid. cbn. by rewrite decide_True.
    + left. intros v. rewrite overlay_at_cons, Hid. cbn. by rewrite decide_False.
  - right. exists c. split; [by right|]. intros v. by rewrite overlay_at_cons.
Qed.

Lemma overlay_at_idemp W l v :
  overlay_at W l (overlay_at W l v) = overlay_at W l v.
Proof.
  destruct (overlay_at_cases W l) as [Hid|(c & _ & Hc)].
  - by rewrite !Hid.
  - by rewrite !Hc.
Qed.

Lemma overlay_at_frame W l v : l ∉ W.*1 → overlay_at W l v = v.
Proof.
  intros Hl. destruct (overlay_at_cases W l) as [Hid|(c & Hin & _)]; [apply Hid|done].
Qed.

Lemma overlay_at_keeps W l v : is_Some v → is_Some (overlay_at W l v).
Proof.
  intros Hv. destruct (overlay_at_cases W l) as [Hid|(c & _ & Hc)].
  - by rewrite Hid.
  - rewrite Hc. by eexists.
Qed.
End overlay.

Lemma result_bind_Raise {A B} (m : result A) (f : A → result B) (e : exn) :
  m ≫= f = Raise e → m = Raise e ∨ ∃ a, m = Ok a ∧ f a = Raise e.
Proof. destruct m as [a|e']; [by right; exists a|]. intros [= ->]. by left. Qed.

Section parser_errors.
Context {lower : StrLower}.
Implicit Types (p : ConfigParser.t) (s k v : pystr).

Lemma before_set_Raise v e : ConfigParser.before_set v = Raise e → e = ValueError.
Proof. unfold ConfigParser.before_set. case_bool_decide; congruence. Qed.

(** Setting an option of a section that exists fails on the value only. *)
Lemma set_Raise s k v p e :
  s ∈ ConfigParser.sections p →
  ConfigParser.set s k v p = Raise e →
  e = ValueError ∧ v ≠ [] ∧ ConfigParser.before_set v = Raise ValueError.
Proof.
  intros Hs. unfold ConfigParser.set.
  intros [Hv|(v' & Hv & Hset)]%result_bind_Raise.
  - case_bool_decide; [|done]. pose proof (before_set_Raise _ _ Hv) as ->. done.
  - destruct (_ || _); [done|].
    apply odict_get_is_Some in Hs as [d Hd]. unfold ConfigParser.sections in Hd.
    by rewrite Hd in Hset.
Qed.

Lemma set_succeeds s k v p :
  s ∈ ConfigParser.sections p →
  (v ≠ [] → ConfigParser.before_set v = Ok v) →
  ∃ p', ConfigParser.set s k v p = Ok p'.
Proof.
  intros Hs Hv. destruct (ConfigParser.set s k v p) as [p'|e] eqn:Hset; [by eexists|].
  apply set_Raise in Hset as (_ & Hne & Hb); [|done]. rewrite Hv in Hb; done.
Qed.

Lemma add_section_succeeds s p :
  s ≠ ConfigParser.default_section → s ∉ ConfigParser.sections p →
  ∃ p', ConfigParser.add_section s p = Ok p'.
Proof.
  intros Hs Hfresh. unfold ConfigParser.add_section.
  rewrite bool_decide_eq_false_2 by done.
  rewrite bool_decide_eq_false_2; [by eexists|].
  by rewrite odict_get_is_Some.
Qed.

Lemma for_result_Raise {A B} (l : list A) (body : B → A → result B) (P : B → Prop)
    acc e :
  P acc →
  (∀ b x b', P b → body b x = Ok b' → P b') →
  (∀ b x e, P b → body b x = Raise e → e = ValueError) →
  for_result l body acc = Raise e → e = ValueError.
Proof.
  intros Hacc Hstep Herr. revert acc Hacc.
  induction l as [|x l IH]; intros acc Hacc; [done|]. cbn.
  destruct (body acc x) as [b|e'] eqn:Hb; [by apply IH, (Hstep acc x)|].
  intros [= <-]. by apply (Herr acc x).
Qed.
End parser_errors.

Section builders_errors.
Context {lower : StrLower}.

Lemma relpath_Raise cwd p start e : os_path.relpath cwd p start = Raise e → e = ValueError.
Proof.
  unfold os_path.relpath. case_bool_decide; [congruence|]. cbv zeta.
  by destruct (_ ++ _).
Qed.

Ltac step_build H t Ht :=
  apply result_bind_Raise in H as [H|(t & Ht & H)].

Lemma build_cargo_toml_Raise self cwd ext e :
  build_cargo_toml self cwd ext = Raise e → e = ValueError.
Proof.
  unfold build_cargo_toml. intros H.
  step_build H t1 H1; [by vm_compute in H|].
  pose proof (add_section_sections _ _ _ H1) as S1. change (ConfigParser.sections ConfigParser.new) with (@nil pystr) in S1. cbn [app] in S1.
  step_build H t2 H2; [apply set_Raise in H as [-> _]; [done|rewrite S1; left]|].
  apply set_sections in H2 as [S2 _]. rewrite S1 in S2.
  step_build H t3 H3; [apply set_Raise in H as [-> _]; [done|rewrite S2; left]|].
  apply set_sections in H3 as [S3 _]. rewrite S2 in S3.
  step_build H t4 H4; [apply set_Raise in H as [-> _]; [done|rewrite S3; left]|].
  apply set_sections in H4 as [S4 _]. rewrite S3 in S4.
  step_build H t5 H5; [apply set_Raise in H as [-> _]; [done|rewrite S4; left]|].
  apply set_sections in H5 as [S5 _]. rewrite S4 in S5.
  step_build H t6 H6.
  { destruct (create_workspace self); [|done].
    step_build H rel Hrel; [by apply relpath_Raise in H|].
    apply set_Raise in H as [-> _]; [done|rewrite S5; left]. }
  assert (ConfigParser.sections t6 = [py "package"]) as S6.
  { destruct (create_workspace self); [|by simplify_eq].
    apply result_bind_Ok in H6 as (rel & _ & H6).
    apply set_sections in H6 as [S6 _]. by rewrite S6. }
  step_build H t7 H7.
  { destruct (add_section_succeeds (py "lib") t6) as [t Ht]; [done| |congruence].
    rewrite S6. by intros ?%list_elem_of_singleton. }
  apply add_section_sections in H7 as S7. rewrite S6 in S7. cbn [app] in S7.
  step_build H t8 H8; [apply set_Raise in H as [-> _]; [done|rewrite S7; right; left]|].
  apply set_sections in H8 as [S8 _]. rewrite S7 in S8.
  step_build H t9 H9; [apply set_Raise in H as [-> _]; [done|rewrite S8; right; left]|].
  apply set_sections in H9 as [S9 _]. rewrite S8 in S9.
  step_build H libpath Hlibpath; [by apply relpath_Raise in H|].
  step_build H t10 H10; [apply set_Raise in H as [-> _]; [done|rewrite S9; right; left]|].
  apply set_sections in H10 as [S10 _]. rewrite S9 in S10.
  step_build H t11 H11.
  { destruct (add_section_succeeds (py "dependencies") t10) as [t Ht]; [done| |congruence].
    rewrite S10. intros Hin. vm_compute in Hin.
    apply list_elem_of_In in Hin. cbn in Hin. destruct Hin as [?|[?|[]]]; done. }
  apply add_section_sections in H11 as S11. rewrite S10 in S11. cbn [app] in S11.
  eapply (for_result_Raise _ _
            (λ t, ConfigParser.sections t = [py "package"; py "lib"; py "dependencies"]));
    [exact S11| | |exact H].
  - intros b x b' Hb Hset. apply set_sections in Hset as [-> _]. done.
  - intros b x e' Hb Hset. apply set_Raise in Hset as [-> _]; [done|].
    rewrite Hb. right. right. left.
Qed.
Lemma mapM_result_Raise {A B} (f : A → result B) (l : list A) e :
  mapM f l = Raise e → ∃ x, x ∈ l ∧ f x = Raise e.
Proof.
  induction l as [|x l IH]; [done|]. cbn.
  intros [Hx|(y & Hy & H)]%result_bind_Raise; [exists x; split; [left|done]|].
  apply result_bind_Raise in H as [H|(ys & Hys & H)]; [|done].
  destruct (IH H) as (x' & Hin & Hx'). exists x'. split; [by right|done].
Qed.

Lemma build_workspace_toml_Raise self cwd e :
  build_workspace_toml self cwd = Raise e → e = ValueError.
Proof.
  unfold build_workspace_toml. intros H.
  step_build H members Hmembers.
  { apply mapM_result_Raise in H as (ext & _ & H).
    apply result_bind_Raise in H as [H|(p & _ & H)]; [|done].
    by apply relpath_Raise in H. }
  step_build H t1 H1; [by vm_compute in H|].
  apply add_section_sections in H1 as S1.
  step_build H t2 H2; [|done].
  apply set_Raise in H as [-> _]; [done|]. rewrite S1. left.
Qed.
End builders_errors.

Section run_effects.
Context {lower : StrLower}.
Implicit Types (self : tomlgen_rust) (ext : RustExtension) (st : state)
  (W : list (list pystr * pystr)).

Lemma written_nil st : written [] st st.
Proof. split; [apply same_dirs_refl|done]. Qed.

Lemma written_log st entries : written [] st (add_log st entries).
Proof. split; [apply same_dirs_refl|done]. Qed.

Lemma written_app W1 W2 st1 st2 st3 :
  written W1 st1 st2 → written W2 st2 st3 → written (W1 ++ W2) st1 st3.
Proof.
  intros [Hd1 Hf1] [Hd2 Hf2]. split; [by eapply same_dirs_trans|].
  intros l. by rewrite Hf2, Hf1, overlay_at_app.
Qed.

Lemma written_write st p c w entries :
  fs.write_file (st_fs st) p c = Ok w →
  ∃ l, fs.resolve (st_fs st) p = Some l
    ∧ written [(l, c)] st (set_fs (add_log st entries) w).
Proof.
  intros (l & Hr & _ & Hd & Hf)%fs_write_file_effect. exists l. split; [done|].
  split; [done|]. intros l'. cbn. rewrite Hf. by destruct (decide (l' = l)), (decide (l = l')).
Qed.

(** The writes of one turn of the loop: at most one, to the manifest
    path of the extension, whether the turn returns or raises. *)
Lemma run_ext_written self ext st r st' :
  run_ext self ext st = (r, st') →
  ∃ W, written W st st'
    ∧ Forall (λ l, fs.resolve (st_fs st) (path ext) = Some l) W.*1.
Proof.
  rewrite run_ext_eq. destruct (build_cargo_toml _ _ _) as [toml|e].
  - destruct (negb _ || _).
    + destruct (fs.write_file _ _ _) as [w|e] eqn:Hw; intros ?; simplify_eq.
      * destruct (written_write _ _ _ _ [(INFO, msg_creating ext)] Hw) as (l & Hr & Hwr).
        exists [(l, ConfigParser.write toml)]. split; [done|]. by constructor.
      * exists []. split; [apply written_log|constructor].
    + intros ?; simplify_eq. exists []. split; [apply written_log|constructor].
  - intros ?; simplify_eq. exists []. split; [apply written_nil|constructor].
Qed.

Lemma run_workspace_written self v st r st' :
  run_workspace self v st = (r, st') →
  ∃ W, written W st st'
    ∧ Forall (λ l, fs.resolve (st_fs st)
                     (os_path.join (workspace self) [py "Cargo.toml"]) = Some l) W.*1.
Proof.
  rewrite run_workspace_eq. destruct (_ && _).
  - destruct (build_workspace_toml _ _) as [toml|e].
    + destruct v as [ext|].
      * destruct (negb _ || _).
        -- destruct (fs.write_file _ _ _) as [w|e] eqn:Hw; intros ?; simplify_eq.
           ++ destruct (written_write _ _ _ _ [(INFO, msg_creating_workspace)] Hw)
                as (l & Hr & Hwr).
              exists [(l, ConfigParser.write toml)]. split; [done|]. by constructor.
           ++ exists []. split; [apply written_log|constructor].
        -- intros ?; simplify_eq. exists []. split; [apply written_log|constructor].
      * intros ?; simplify_eq. exists []. split; [apply written_nil|constructor].
    + intros ?; simplify_eq. exists []. split; [apply written_nil|constructor].
  - intros ?; simplify_eq. exists []. split; [apply written_nil|constructor].
Qed.

Lemma loop_written self exts var st r st' :
  for_in exts (run_ext self) var st = (r, st') →
  ∃ W, written W st st'
    ∧ Forall (λ l, ∃ ext, ext ∈ exts ∧ fs.resolve (st_fs st) (path ext) = Some l) W.*1.
Proof.
  revert var st. induction exts as [|ext exts IH]; intros var st.
  - rewrite for_in_nil. intros ?; simplify_eq. exists []. split; [apply written_nil|constructor].
  - rewrite for_in_cons.
    destruct (run_ext self ext st) as [[[]|e] st1] eqn:Hext;
      destruct (run_ext_written _ _ _ _ _ Hext) as (W1 & Hw1 & Hl1).
    + intros (W2 & Hw2 & Hl2)%IH. exists (W1 ++ W2).
      split; [by eapply written_app|]. rewrite fmap_app. apply Forall_app. split.
      * eapply Forall_impl; [exact Hl1|]. intros l Hl. exists ext. split; [left|done].
      * eapply Forall_impl; [exact Hl2|]. intros l (ext' & Hin & Hl).
        exists ext'. split; [by right|].
        by rewrite <- (fs_resolve_same_dirs _ _ _ (proj1 Hw1)).
    + intros ?; simplify_eq. exists W1. split; [done|].
      eapply Forall_impl; [exact Hl1|]. intros l Hl. exists ext. split; [left|done].
Qed.

Lemma run_written self st r st' :
  run self st = (r, st') →
  ∃ W, written W st st'
    ∧ Forall (λ l, ∃ p, p ∈ targets self ∧ fs.resolve (st_fs st) p = Some l) W.*1.
Proof.
  rewrite run_eq. destruct (for_in _ _ _ _) as [[v|e] st1] eqn:Hloop;
    destruct (loop_written _ _ _ _ _ _ Hloop) as (W1 & Hw1 & Hl1).
  - intros (W2 & Hw2 & Hl2)%run_workspace_written. exists (W1 ++ W2).
    split; [by eapply written_app|]. rewrite fmap_app. apply Forall_app. split.
    + eapply Forall_impl; [exact Hl1|]. intros l (ext & Hin & Hl).
      exists (path ext). split; [|done]. apply elem_of_app. left.
      apply list_elem_of_fmap. by exists ext.
    + eapply Forall_impl; [exact Hl2|]. intros l Hl. eexists. split.
      * apply elem_of_app. right. left.
      * by rewrite <- (fs_resolve_same_dirs _ _ _ (proj1 Hw1)).
  - intros ?; simplify_eq. exists W1. split; [done|].
    eapply Forall_impl; [exact Hl1|]. intros l (ext & Hin & Hl).
    exists (path ext). split; [|done]. apply elem_of_app. left.
    apply list_elem_of_fmap. by exists ext.
Qed.
End run_effects.

(** X1. Whatever the outcome of [run], it creates and removes no
    directory and leaves the current directory as it is; every path that
    named a regular file still names one; and a path whose content has
    changed names the same position as one of the targets of the command:
    the manifest paths of its extensions and [Cargo.toml] in the workspace
    directory. *)
Theorem run_frame {lower : StrLower} (self : tomlgen_rust) (st st' : state)
    (r : result unit) :
  run self st = (r, st') →
  same_dirs (st_fs st) (st_fs st')
  ∧ (∀ q, is_Some (fs.read (st_fs st) q) → is_Some (fs.read (st_fs st') q))
  ∧ (∀ q, fs.read (st_fs st') q ≠ fs.read (st_fs st) q →
          ∃ p, p ∈ targets self
            ∧ is_Some (fs.resolve (st_fs st) p)
            ∧ fs.resolve (st_fs st) q = fs.resolve (st_fs st) p).
Proof.
  intros (W & [Hd Hf] & Hl)%run_written. split_and!; [done|..].
  - intros q. rewrite !fs_read_file_at, (fs_resolve_same_dirs _ _ q Hd).
    destruct (fs.resolve (st_fs st) q) as [l|]; [|done]. cbn.
    rewrite Hf. apply overlay_at_keeps.
  - intros q. rewrite !fs_read_file_at, (fs_resolve_same_dirs _ _ q Hd).
    destruct (fs.resolve (st_fs st) q) as [l|]; [|done]. cbn.
    rewrite Hf. intros Hne. destruct (decide (l ∈ W.*1)) as [Hin|Hin].
    + rewrite Forall_forall in Hl. destruct (Hl l Hin) as (p & Hp & Hr).
      exists p. by rewrite Hr.
    + by rewrite overlay_at_frame in Hne.
Qed.

Lemma run_frame_witness :
  let st := demo.start demo.fresh in
  let st' := (run (lower := ascii_lower) (demo.command true true) st).2 in
  fs.read (st_fs st') (py "setup.py") = Some (py "setup()")
  ∧ fs.read (st_fs st') (py "lib/mylib/rustext/lib.rs") = Some (py "// lib")
  ∧ is_Some (fs.read (st_fs st') (py "Cargo.toml")).
Proof.
  intros st st'.
  destruct (run_frame (lower := ascii_lower) (demo.command true true) st st'
              (run (lower := ascii_lower) (demo.command true true) st).1)
    as (_ & Hkeeps & Hframe); [by destruct (run _ _)|].
  assert (∀ q c, fs.read (st_fs st) q = Some c →
            (∀ p, p ∈ targets (demo.command true true) →
               fs.resolve (st_fs st) q ≠ fs.resolve (st_fs st) p) →
            fs.read (st_fs st') q = Some c) as Hother.
  { intros q c Hq Hp. destruct (decide (fs.read (st_fs st') q = fs.read (st_fs st) q))
      as [->|Hne]; [done|].
    destruct (Hframe q Hne) as (p & Hin & _ & Heq). by destruct (Hp p Hin). }
  split_and!.
  - apply Hother; [reflexivity|]. intros p Hp%list_elem_of_In.
    vm_compute in Hp. destruct Hp as [<-|[<-|[]]]; vm_compute; discriminate.
  - apply Hother; [reflexivity|]. intros p Hp%list_elem_of_In.
    vm_compute in Hp. destruct Hp as [<-|[<-|[]]]; vm_compute; discriminate.
  - vm_compute. by eexists.
Defined.

Section run_forced.
Context {lower : StrLower}.
Implicit Types (self : tomlgen_rust) (ext : RustExtension) (st : state)
  (W : list (list pystr * pystr)).

(** A write that succeeds succeeds again, at the same position, in a
    file system with the same directories. *)
Lemma written_write_again st st_b p c w entries :
  fs.write_file (st_fs st) p c = Ok w →
  same_dirs (st_fs st) (st_fs st_b) →
  ∃ l w_b, fs.write_file (st_fs st_b) p c = Ok w_b
    ∧ written [(l, c)] st (set_fs (add_log st entries) w)
    ∧ written [(l, c)] st_b (set_fs (add_log st_b entries) w_b).
Proof.
  intros Hw Hd.
  destruct (fs.write_file (st_fs st_b) p c) as [w_b|e] eqn:Hw_b.
  - destruct (written_write _ _ _ _ entries Hw) as (l & Hr & Hwr).
    destruct (written_write _ _ _ _ entries Hw_b) as (l_b & Hr_b & Hwr_b).
    rewrite (fs_resolve_same_dirs _ _ _ Hd), Hr in Hr_b. simplify_eq. eauto.
  - assert (e = OSError) as ->.
    { unfold fs.write_file in Hw_b. destruct (fs.resolve _ _); [|congruence].
      destruct (fs.is_dir _ _); congruence. }
    apply (fs_write_file_same_dirs _ _ _ _ Hd) in Hw_b. congruence.
Qed.

Lemma run_ext_again self ext st st' st_b :
  force self = true →
  run_ext self ext st = (Ok tt, st') →
  same_dirs (st_fs st) (st_fs st_b) →
  ∃ W st_b', run_ext self ext st_b = (Ok tt, st_b')
    ∧ written W st st' ∧ written W st_b st_b'.
Proof.
  intros Hf Hrun Hd. rewrite run_ext_eq in Hrun. rewrite run_ext_eq.
  rewrite (fs_getcwd_same_dirs _ _ Hd).
  destruct (build_cargo_toml _ _ _) as [toml|e]; [|done].
  rewrite Hf, orb_true_r in Hrun |- *.
  destruct (fs.write_file (st_fs st) _ _) as [w|e] eqn:Hw; [|done]. simplify_eq.
  destruct (written_write_again _ _ _ _ _ [(INFO, msg_creating ext)] Hw Hd)
    as (l & w_b & -> & Hwr & Hwr_b). eauto.
Qed.

Lemma loop_again self exts var st v st' st_b :
  force self = true →
  for_in exts (run_ext self) var st = (Ok v, st') →
  same_dirs (st_fs st) (st_fs st_b) →
  ∃ W st_b', for_in exts (run_ext self) var st_b = (Ok v, st_b')
    ∧ written W st st' ∧ written W st_b st_b'.
Proof.
  intros Hf. revert var st st_b. induction exts as [|ext exts IH]; intros var st st_b.
  - rewrite !for_in_nil. intros ? Hd; simplify_eq.
    exists [], st_b. split_and!; [done|apply written_nil..].
  - rewrite !for_in_cons.
    destruct (run_ext self ext st) as [[[]|e] st1] eqn:Hext; [|done]. intros Hloop Hd.
    destruct (run_ext_again _ _ _ _ _ Hf Hext Hd) as (W1 & st_b1 & -> & Hw1 & Hw_b1).
    destruct (IH _ _ st_b1 Hloop) as (W2 & st_b' & -> & Hw2 & Hw_b2).
    { eapply same_dirs_trans; [apply same_dirs_sym, Hw1|].
      eapply same_dirs_trans; [exact Hd|apply Hw_b1]. }
    exists (W1 ++ W2), st_b'. split_and!; [done|by eapply written_app..].
Qed.

Lemma run_workspace_again self v st st' st_b :
  force self = true →
  run_workspace self v st = (Ok tt, st') →
  same_dirs (st_fs st) (st_fs st_b) →
  ∃ W st_b', run_workspace self v st_b = (Ok tt, st_b')
    ∧ written W st st' ∧ written W st_b st_b'.
Proof.
  intros Hf Hrun Hd. rewrite run_workspace_eq in Hrun. rewrite run_workspace_eq.
  rewrite (fs_getcwd_same_dirs _ _ Hd).
  destruct (_ && _).
  - destruct (build_workspace_toml _ _) as [toml|e]; [|done].
    destruct v as [ext|]; [|done].
    rewrite Hf, orb_true_r in Hrun |- *.
    destruct (fs.write_file (st_fs st) _ _) as [w|e] eqn:Hw; [|done]. simplify_eq.
    destruct (written_write_again _ _ _ _ _ [(INFO, msg_creating_workspace)] Hw Hd)
      as (l & w_b & -> & Hwr & Hwr_b). eauto.
  - simplify_eq. exists [], st_b. split_and!; [done|apply written_nil..].
Qed.

Lemma run_again self st st' st_b :
  force self = true →
  run self st = (Ok tt, st') →
  same_dirs (st_fs st) (st_fs st_b) →
  ∃ W st_b', run self st_b = (Ok tt, st_b')
    ∧ written W st st' ∧ written W st_b st_b'.
Proof.
  intros Hf Hrun Hd. rewrite run_eq in Hrun. rewrite run_eq.
  destruct (for_in _ _ _ st) as [[v|e] st1] eqn:Hloop; [|done].
  destruct (loop_again _ _ _ _ _ _ _ Hf Hloop Hd) as (W1 & st_b1 & -> & Hw1 & Hw_b1).
  destruct (run_workspace_again _ _ _ _ st_b1 Hf Hrun) as (W2 & st_b' & -> & Hw2 & Hw_b2).
  { eapply same_dirs_trans; [apply same_dirs_sym, Hw1|].
    eapply same_dirs_trans; [exact Hd|apply Hw_b1]. }
  exists (W1 ++ W2), st_b'. split_and!; [done|by eapply written_app..].
Qed.

End run_forced.

(** X2. With the force flag set, a run that follows a successful run
    succeeds as well and leaves every file as the first run left it: the
    manifests are written again, with the same content. *)
Theorem run_twice_force {lower : StrLower} (self : tomlgen_rust) (st0 st1 : state) :
  force self = true →
  run self st0 = (Ok tt, st1) →
  ∃ st2, run self st1 = (Ok tt, st2)
    ∧ ∀ p, fs.read (st_fs st2) p = fs.read (st_fs st1) p
           ∧ fs.exists_ (st_fs st2) p = fs.exists_ (st_fs st1) p.
Proof.
  intros Hf Hrun.
  destruct (run_again self st0 st1 st1 Hf Hrun) as (W & st2 & Hrun2 & Hw1 & Hw2).
  { pose proof (run_written _ _ _ _ Hrun) as (W' & [Hd _] & _). done. }
  exists st2. split; [done|]. intros p.
  assert (same_files (st_fs st1) (st_fs st2)) as Hsame.
  { split; [apply Hw2|]. intros l. destruct Hw1 as [_ Hf1], Hw2 as [_ Hf2].
    by rewrite Hf2, Hf1, overlay_at_idemp. }
  destruct (same_files_observations _ _ p Hsame) as (? & ? & _). done.
Qed.

Lemma run_twice_force_witness :
  let self := demo.command true true in
  let st1 := (run (lower := ascii_lower) self (demo.start demo.stale)).2 in
  fs.read (st_fs st1) (py "lib/mylib/rustext/Cargo.toml") ≠ Some (py "old")
  ∧ ∃ st2, run (lower := ascii_lower) self st1 = (Ok tt, st2)
      ∧ fs.read (st_fs st2) (py "lib/mylib/rustext/Cargo.toml")
        = fs.read (st_fs st1) (py "lib/mylib/rustext/Cargo.toml").
Proof.
  intros self st1. split; [vm_compute; discriminate|].
  destruct (run_twice_force (lower := ascii_lower) self (demo.start demo.stale) st1)
    as (st2 & Hrun & Hsame); [reflexivity|vm_compute; reflexivity|].
  exists st2. split; [done|]. apply Hsame.
Defined.

(** X3. The loop of [run] stops at the first extension whose turn
    raises: when the turns of the extensions before it have returned,
    [run] raises that exception in the state in which the failing turn
    ended. The manifests written before stay in place, the extensions
    after it are not processed and the workspace manifest is not
    considered. *)
Theorem run_stops_at_first_failure {lower : StrLower} (self : tomlgen_rust)
    (before after : list RustExtension) (ext : RustExtension)
    (st st1 st2 : state) (v : option RustExtension) (e : exn) :
  extensions self = before ++ ext :: after →
  for_in before (run_ext self) None st = (Ok v, st1) →
  run_ext self ext st1 = (Raise e, st2) →
  run self st = (Raise e, st2).
Proof.
  intros Hexts Hbefore Hext.
  rewrite run_eq, Hexts, for_in_app, Hbefore, for_in_cons, Hext. done.
Qed.

Lemma run_stops_at_first_failure_witness :
  let ext := {| name := py "orphan"; path := py "missing/Cargo.toml";
                libfile := py "missing/lib.rs" |} in
  let self := {| distribution := demo.dist; cfg := ∅; authors := py "[]";
                 create_workspace := true; force := false;
                 extensions := [demo.ext; ext; demo.ext]; workspace := py "/home/u/proj" |} in
  ∃ st2, run (lower := ascii_lower) self (demo.start demo.fresh) = (Raise OSError, st2)
         ∧ is_Some (fs.read (st_fs st2) (path demo.ext))
         ∧ fs.exists_ (st_fs st2) (py "Cargo.toml") = false.
Proof.
  intros ext self.
  set (o1 := for_in [demo.ext] (run_ext (lower := ascii_lower) self) None
               (demo.start demo.fresh)).
  set (o2 := run_ext (lower := ascii_lower) self ext o1.2).
  exists o2.2. split_and!.
  - apply (run_stops_at_first_failure (lower := ascii_lower) self [demo.ext] [demo.ext]
             ext (demo.start demo.fresh) o1.2 o2.2 (Some demo.ext) OSError).
    + reflexivity.
    + vm_compute. reflexivity.
    + vm_compute. reflexivity.
  - vm_compute. by eexists.
  - vm_compute. reflexivity.
Defined.



(** A turn of the loop fails with [ValueError] or [OSError] only. *)
Lemma run_ext_Raise {lower : StrLower} (self : tomlgen_rust) (ext : RustExtension)
    (st st' : state) (e : exn) :
  run_ext self ext st = (Raise e, st') → e = ValueError ∨ e = OSError.
Proof.
  rewrite run_ext_eq. destruct (build_cargo_toml _ _ _) as [toml|e'] eqn:Hb.
  - destruct (negb _ || _); [|done].
    destruct (fs.write_file _ _ _) as [w|e'] eqn:Hw; [done|].
    intros ?; simplify_eq. right. unfold fs.write_file in Hw.
    destruct (fs.resolve _ _); [|by simplify_eq]. destruct (fs.is_dir _ _); by simplify_eq.
  - intros ?; simplify_eq. left. by apply build_cargo_toml_Raise in Hb.
Qed.



(** X6. Without the force flag, a successful run of a command that is
    to create a workspace for at least one extension never writes the
    workspace manifest: the existence check looks at the manifest of the
    last extension, which the loop has just left in place, so that the run
    ends with the warning that the workspace manifest is skipped and
    otherwise leaves the state as the loop left it. *)
Theorem run_without_force_skips_workspace {lower : StrLower}
    (self : tomlgen_rust) (st st' : state) :
  force self = false → create_workspace self = true → extensions self ≠ [] →
  run self st = (Ok tt, st') →
  ∃ st1, for_in (extensions self) (run_ext self) None st
           = (Ok (last (extensions self)), st1)
    ∧ st' = add_log st1 [(WARN, msg_skipping_workspace)].
Proof.
  intros Hf Hcw Hne. rewrite run_eq.
  destruct (for_in _ _ _ _) as [[v|e] st1] eqn:Hloop; [|done].
  pose proof (for_in_var _ _ _ _ _ _ Hloop) as Hv.
  assert (v = last (extensions self)) as -> by (by destruct (last _)).
  apply loop_Ok in Hloop as [_ Hall].
  rewrite run_workspace_eq, Hcw, bool_decide_eq_true_2 by done. cbn [andb].
  destruct (build_workspace_toml _ _) as [toml|]; [|done].
  destruct (last (extensions self)) as [ext|] eqn:Hlast; [|done].
  assert (fs.exists_ (st_fs st1) (path ext) = true) as ->.
  { apply last_Some in Hlast as [exts Hexts]. rewrite Hexts in Hall.
    apply Forall_app in Hall as [_ Hall]. by apply Forall_singleton in Hall as [? _]. }
  rewrite Hf. cbn [negb orb]. intros ?; simplify_eq. by exists st1.
Qed.

Lemma run_without_force_skips_workspace_witness :
  let self := demo.command true false in
  let st' := (run (lower := ascii_lower) self (demo.start demo.fresh)).2 in
  last (st_log st') = Some (WARN, msg_skipping_workspace)
  ∧ fs.exists_ (st_fs st') (os_path.join (workspace self) [py "Cargo.toml"]) = false.
Proof.
  intros self st'.
  destruct (run_without_force_skips_workspace (lower := ascii_lower) self
              (demo.start demo.fresh) st') as (st1 & _ & Hst');
    [reflexivity|reflexivity|done|vm_compute; reflexivity|].
  split; [|vm_compute; reflexivity].
  rewrite Hst'. cbn. apply last_snoc.
Defined.

(** X7. With the force flag, a successful run of a command that is to
    create a workspace for at least one extension ends by writing the
    workspace document, as [build_workspace_toml] returns it in the
    starting directory, to [Cargo.toml] in the workspace directory; the
    last message of the log announces its creation. *)
Theorem run_with_force_writes_workspace {lower : StrLower}
    (self : tomlgen_rust) (st st' : state) :
  force self = true → create_workspace self = true → extensions self ≠ [] →
  run self st = (Ok tt, st') →
  ∃ toml, build_workspace_toml self (fs.getcwd (st_fs st)) = Ok toml
    ∧ fs.read (st_fs st') (os_path.join (workspace self) [py "Cargo.toml"])
      = Some (ConfigParser.write toml)
    ∧ last (st_log st') = Some (INFO, msg_creating_workspace).
Proof.
  intros Hf Hcw Hne. rewrite run_eq.
  destruct (for_in _ _ _ _) as [[v|e] st1] eqn:Hloop; [|done].
  apply loop_Ok in Hloop as [Hle _].
  rewrite run_workspace_eq, Hcw, bool_decide_eq_true_2 by done. cbn [andb].
  rewrite (fs_getcwd_le _ _ Hle).
  destruct (build_workspace_toml _ _) as [toml|]; [|done].
  destruct v as [ext|]; [|done]. rewrite Hf, orb_true_r.
  destruct (fs.write_file _ _ _) as [w|] eqn:Hw; [|done]. intros ?; simplify_eq.
  exists toml. split_and!; [done|by eapply fs_write_file_read|].
  cbn. apply last_snoc.
Qed.

Lemma run_with_force_writes_workspace_witness :
  let self := demo.command true true in
  let st' := (run (lower := ascii_lower) self (demo.start demo.fresh)).2 in
  fs.read (st_fs st') (py "/home/u/proj/Cargo.toml")
  = Some (py "[workspace]" ++ [newline]
          ++ py "members = [" ++ quote (py "lib/mylib/rustext") ++ py "]" ++ [newline]
          ++ [newline]).
Proof.
  intros self st'.
  destruct (run_with_force_writes_workspace (lower := ascii_lower) self
              (demo.start demo.fresh) st') as (toml & Hb & Hread & _);
    [reflexivity|reflexivity|done|vm_compute; reflexivity|].
  change (py "/home/u/proj/Cargo.toml")
    with (os_path.join (workspace self) [py "Cargo.toml"]).
  rewrite Hread. f_equal.
  let t := eval vm_compute in
    (build_workspace_toml (lower := ascii_lower) self
       (fs.getcwd (st_fs (demo.start demo.fresh)))) in
  assert (build_workspace_toml (lower := ascii_lower) self
            (fs.getcwd (st_fs (demo.start demo.fresh))) = t) as Hb'
    by (vm_compute; reflexivity).
  rewrite Hb' in Hb. injection Hb as <-. vm_compute. reflexivity.
Defined.

Section interpolation.
Implicit Types (s pre rest : pystr) (x y : char).

Lemma drop_escaped_cons_ne x s :
  x ≠ ConfigParser.percent →
  ConfigParser.drop_escaped (x :: s) = x :: ConfigParser.drop_escaped s.
Proof.
  intros Hx. destruct s as [|y s]; [done|].
  change (ConfigParser.drop_escaped (x :: y :: s))
    with (if bool_decide (x = ConfigParser.percent ∧ y = ConfigParser.percent)
          then ConfigParser.drop_escaped s
          else x :: ConfigParser.drop_escaped (y :: s)).
  rewrite bool_decide_eq_false_2; [done|]. by intros [? _].
Qed.

Lemma drop_escaped_lone_percent pre y rest :
  ConfigParser.percent ∉ pre → y ≠ ConfigParser.percent →
  ConfigParser.drop_escaped (pre ++ ConfigParser.percent :: y :: rest)
  = pre ++ ConfigParser.percent :: y :: ConfigParser.drop_escaped rest.
Proof.
  intros Hpre Hy. induction pre as [|x pre IH].
  - cbn [app].
    change (ConfigParser.drop_escaped (ConfigParser.percent :: y :: rest))
      with (if bool_decide (ConfigParser.percent = ConfigParser.percent
                            ∧ y = ConfigParser.percent)
            then ConfigParser.drop_escaped rest
            else ConfigParser.percent :: ConfigParser.drop_escaped (y :: rest)).
    rewrite bool_decide_eq_false_2 by (by intros [_ ?]).
    by rewrite drop_escaped_cons_ne.
  - apply not_elem_of_cons in Hpre as [Hx Hpre]. cbn [app].
    rewrite drop_escaped_cons_ne by done. by rewrite IH.
Qed.

Lemma sub_keycre_lone_percent pre y rest :
  ConfigParser.percent ∉ pre → y ≠ 40 →
  ConfigParser.percent
    ∈ ConfigParser.sub_keycre 0 (pre ++ ConfigParser.percent :: y :: rest).
Proof.
  intros Hpre Hy. induction pre as [|x pre IH].
  - cbn [app ConfigParser.sub_keycre]. rewrite bool_decide_eq_true_2 by done.
    unfold ConfigParser.keycre_match. rewrite (bool_decide_eq_false_2 (y = 40)) by done.
    cbn [andb]. left.
  - apply not_elem_of_cons in Hpre as [Hx Hpre]. cbn [app ConfigParser.sub_keycre].
    rewrite bool_decide_eq_false_2 by done. right. by apply IH.
Qed.

(** A percent sign that is the first of the value and is followed by
    something other than a percent sign or an opening parenthesis is
    refused. *)
Lemma before_set_lone_percent pre y rest :
  ConfigParser.percent ∉ pre → y ≠ ConfigParser.percent → y ≠ 40 →
  ConfigParser.before_set (pre ++ ConfigParser.percent :: y :: rest)
  = Raise ValueError.
Proof.
  intros Hpre Hy1 Hy2. unfold ConfigParser.before_set. cbv zeta.
  rewrite drop_escaped_lone_percent by done.
  rewrite bool_decide_eq_true_2; [done|]. by apply sub_keycre_lone_percent.
Qed.
End interpolation.

Lemma set_refused {lower : StrLower} (s k v : pystr) (p : ConfigParser.t) (e : exn) :
  v ≠ [] → ConfigParser.before_set v = Raise e → ConfigParser.set s k v p = Raise e.
Proof.
  intros Hv Hb. unfold ConfigParser.set.
  rewrite (bool_decide_eq_true_2 (v ≠ [])) by done. by rewrite Hb.
Qed.

(** X8. An extension name with a percent sign that no other percent
    sign precedes and that is followed neither by a percent sign nor by an
    opening parenthesis is refused by the interpolation check of the
    parser: [build_cargo_toml] raises [ValueError], and so does the turn
    of the loop, before anything is logged or written. *)
Theorem percent_in_name_aborts {lower : StrLower} (self : tomlgen_rust)
    (ext : RustExtension) (st : state) (pre post : pystr) :
  name ext = pre ++ ConfigParser.percent :: post →
  ConfigParser.percent ∉ pre →
  (∀ y, head post = Some y → y ≠ ConfigParser.percent ∧ y ≠ 40) →
  build_cargo_toml self (fs.getcwd (st_fs st)) ext = Raise ValueError
  ∧ run_ext self ext st = (Raise ValueError, st).
Proof.
  intros Hname Hpre Hpost.
  assert (build_cargo_toml self (fs.getcwd (st_fs st)) ext = Raise ValueError) as Hb.
  { unfold build_cargo_toml. cbv zeta.
    change (ConfigParser.add_section (py "package") ConfigParser.new)
      with (Ok {| ConfigParser._defaults := [];
                  ConfigParser._sections := [(py "package", [])] |}).
    cbn [mbind result_bind].
    rewrite (set_refused _ _ (quote (name ext)) _ ValueError); [done|done|].
    unfold quote. rewrite Hname.
    destruct post as [|y post].
    - replace ([dquote] ++ (pre ++ [ConfigParser.percent]) ++ [dquote])
        with ((dquote :: pre) ++ ConfigParser.percent :: dquote :: [])
        by (cbn; by rewrite <- app_assoc).
      apply before_set_lone_percent; [|done..]. by apply not_elem_of_cons.
    - destruct (Hpost y eq_refl) as [Hy1 Hy2].
      replace ([dquote] ++ (pre ++ ConfigParser.percent :: y :: post) ++ [dquote])
        with ((dquote :: pre) ++ ConfigParser.percent :: y :: (post ++ [dquote]))
        by (cbn; by rewrite <- app_assoc).
      apply before_set_lone_percent; [|done..]. by apply not_elem_of_cons. }
  split; [done|]. by rewrite run_ext_eq, Hb.
Qed.

Lemma percent_in_name_aborts_witness :
  let ext := {| name := py "50%off"; path := py "lib/mylib/rustext/Cargo.toml";
                libfile := py "lib/mylib/rustext/lib.rs" |} in
  run_ext (lower := ascii_lower) (demo.command false true) ext (demo.start demo.fresh)
  = (Raise ValueError, demo.start demo.fresh).
Proof.
  intros ext.
  apply (percent_in_name_aborts (lower := ascii_lower) (demo.command false true) ext
           (demo.start demo.fresh) (py "50") (py "off")).
  - reflexivity.
  - apply (bool_decide_unpack _). vm_compute. reflexivity.
  - intros y [= <-]. split; discriminate.
Defined.

Section odict_update.
Context {V : Type}.
Implicit Types (d items : list (pystr * V)) (k : pystr) (v : V).

Lemma odict_update_get_absent items k d :
  k ∉ items.*1 → odict.get k (odict.update items d) = odict.get k d.
Proof.
  induction items as [|[k0 v0] items IH] using rev_ind; [done|].
  rewrite fmap_app, odict_update_snoc, not_elem_of_app. cbn.
  intros [Hitems Hk0%not_elem_of_cons]. rewrite odict_get_set_ne by (intros ->; by destruct Hk0).
  by apply IH.
Qed.

(** Updating is a union in which the new items win. *)
Lemma odict_update_lookup items k d :
  NoDup items.*1 →
  odict.get k (odict.update items d)
  = match odict.get k items with
    | Some v => Some v
    | None => odict.get k d
    end.
Proof.
  intros Hnd. destruct (odict.get k items) as [v|] eqn:Hk.
  - apply odict_update_get; [done|]. clear Hnd.
    induction items as [|[k0 v0] items IH]; [done|]. cbn in Hk.
    destruct (decide (k0 = k)) as [->|]; [simplify_eq; left|right; auto].
  - apply odict_update_get_absent. by apply odict_get_None.
Qed.

(** The keys that were there keep their places; the new ones follow in
    the order of the items. *)
Lemma odict_update_keys items d :
  NoDup items.*1 →
  (odict.update items d).*1 = d.*1 ++ filter (λ k, k ∉ d.*1) items.*1.
Proof.
  induction items as [|[k v] items IH] using rev_ind.
  - intros _. cbn. by rewrite app_nil_r.
  - rewrite fmap_app, odict_update_snoc. cbn.
    intros (Hnd & Hk & _)%NoDup_app. specialize (IH Hnd).
    rewrite filter_app. destruct (decide (k ∈ d.*1)) as [Hin|Hin].
    + rewrite odict_set_keys_present, IH.
      * rewrite filter_cons_False by (intros ?; done). by rewrite filter_nil, app_nil_r.
      * rewrite IH. apply elem_of_app. by left.
    + rewrite odict_set_keys_absent, IH.
      * rewrite filter_cons_True by done. by rewrite filter_nil, app_assoc.
      * rewrite IH. rewrite elem_of_app, list_elem_of_filter.
        intros [?|[_ ?]]; [done|]. apply (Hk k); [done|left].
Qed.
End odict_update.

(** X9. The dependencies of a manifest are the union of the global
    items and the items of the extension, in which the extension wins.
    When the option names within each of the two sections differ from one
    another and are what [optionxform] makes of them, a dependency has the
    value that the section of the extension gives it, if it is listed
    there, and the value of the global section otherwise; the global
    dependencies come first, in their order, followed by those that only
    the extension lists. *)
Theorem dependencies_union {lower : StrLower} (self : tomlgen_rust) (cwd : pystr)
    (ext : RustExtension) (toml : ConfigParser.t) :
  let global_items :=
    default [] (cfg self !! (get_command_name ++ py ".dependencies")) in
  let ext_items :=
    default [] (cfg self !! (get_command_name ++ py ".dependencies." ++ name ext)) in
  build_cargo_toml self cwd ext = Ok toml →
  NoDup global_items.*1 → NoDup ext_items.*1 →
  Forall (λ kv, ConfigParser.optionxform kv.1 = kv.1) (global_items ++ ext_items) →
  ∃ deps,
    odict.get (py "dependencies") (ConfigParser._sections toml) = Some deps
    ∧ (∀ dep, odict.get dep deps
              = match odict.get dep ext_items with
                | Some v => Some v
                | None => odict.get dep global_items
                end)
    ∧ deps.*1 = global_items.*1 ++ filter (λ k, k ∉ global_items.*1) ext_items.*1.
Proof.
  intros global_items ext_items (_ & _ & Hdeps)%build_cargo_toml_Ok Hg He Hfix.
  eexists. split; [exact Hdeps|].
  assert (iter_dependencies self (Some ext) = global_items ++ ext_items) as ->.
  { unfold iter_dependencies, global_items, ext_items.
    cbn [fmap list_fmap app mjoin list_join]. rewrite app_nil_r.
    reflexivity. }
  assert (prod_map ConfigParser.optionxform id <$> global_items ++ ext_items
          = global_items ++ ext_items) as ->.
  { rewrite <- (list_fmap_id (global_items ++ ext_items)) at 2.
    apply Forall_fmap_ext_1. eapply Forall_impl; [exact Hfix|].
    intros [k v] Hk. cbn in *. by rewrite Hk. }
  rewrite odict_update_app. split.
  - intros dep. rewrite !odict_update_lookup by done.
    by destruct (odict.get dep ext_items), (odict.get dep global_items).
  - rewrite !odict_update_keys by done. cbn [fmap list_fmap app].
    assert (∀ l : list pystr, filter (λ k, k ∉ []) l = l) as Hall.
    { intros l. induction l as [|k l IH]; [done|].
      rewrite filter_cons_True by apply not_elem_of_nil. by rewrite IH. }
    by rewrite Hall.
Qed.

Lemma dependencies_union_witness :
  ∃ toml deps,
    build_cargo_toml (lower := ascii_lower) (demo.command false false) (fs.getcwd demo.fresh) demo.ext
    = Ok toml
    ∧ odict.get (py "dependencies") (ConfigParser._sections toml) = Some deps
    ∧ odict.get (py "libc") deps = Some (quote (py "2"))
    ∧ deps.*1 = [py "pyo3"; py "libc"].
Proof.
  destruct (build_cargo_toml (lower := ascii_lower) (demo.command false false)
              (fs.getcwd demo.fresh) demo.ext) as [toml|e] eqn:Hb; [|by vm_compute in Hb].
  destruct (dependencies_union (lower := ascii_lower) (demo.command false false)
              (fs.getcwd demo.fresh) demo.ext toml) as (deps & Hdeps & Hget & Hkeys).
  - exact Hb.
  - apply (bool_decide_unpack _). vm_compute. reflexivity.
  - apply (bool_decide_unpack _). vm_compute. reflexivity.
  - vm_compute. repeat constructor.
  - exists toml, deps. split_and!; [done|exact Hdeps|..].
    + rewrite Hget. vm_compute. reflexivity.
    + rewrite Hkeys. vm_compute. reflexivity.
Defined.

Lemma isabs_cons p : os_path.isabs p = true ↔ ∃ p', p = os_path.sep :: p'.
Proof.
  unfold os_path.isabs, Str.startswith. rewrite bool_decide_eq_true. split.
  - destruct p as [|x p]; [done|]. cbn. intros ?; simplify_eq. eauto.
  - by intros [p' ->].
Qed.

Lemma normpath_isabs p :
  os_path.isabs p = true → os_path.isabs (os_path.normpath p) = true.
Proof.
  intros Habs. pose proof Habs as [p' ->]%isabs_cons.
  unfold os_path.normpath. rewrite bool_decide_eq_false_2 by done. cbv zeta.
  change (Str.startswith (os_path.sep :: p') (py "/")) with (os_path.isabs (os_path.sep :: p')).
  rewrite Habs.
  destruct (Str.startswith _ _ && negb _); cbn [replicate app];
    (rewrite bool_decide_eq_false_2 by done); apply isabs_cons; eauto.
Qed.

Lemma join2_isabs a b :
  os_path.isabs a = true → os_path.isabs (os_path.join2 a b) = true.
Proof.
  intros Ha. unfold os_path.join2.
  destruct (Str.startswith b [os_path.sep]) eqn:Hb; [done|].
  apply isabs_cons in Ha as [a' ->].
  destruct (_ || _); apply isabs_cons; eauto.
Qed.

Lemma abspath_isabs cwd p :
  os_path.isabs cwd = true → os_path.isabs (os_path.abspath cwd p) = true.
Proof.
  intros Hcwd. unfold os_path.abspath. apply normpath_isabs.
  destruct (os_path.isabs p) eqn:Hp; [done|]. by apply join2_isabs.
Qed.

(** X10. When the current directory is an absolute path,
    [finalize_options] makes the workspace directory an absolute path:
    the path of the workspace manifest is absolute and names the same
    position whatever the current directory is when [run] writes it. *)
Theorem workspace_is_absolute (dist : Distribution) (cfg : config) (cwd : pystr)
    (opts : options) :
  os_path.isabs cwd = true →
  let self := finalize_options dist cfg cwd opts in
  os_path.isabs (workspace self) = true
  ∧ os_path.isabs (os_path.join (workspace self) [py "Cargo.toml"]) = true
  ∧ ∀ w w', fs_root w = fs_root w' →
       fs.resolve w (os_path.join (workspace self) [py "Cargo.toml"])
       = fs.resolve w' (os_path.join (workspace self) [py "Cargo.toml"]).
Proof.
  intros Hcwd self.
  assert (os_path.isabs (workspace self) = true) as Hws by (by apply abspath_isabs).
  assert (os_path.isabs (os_path.join (workspace self) [py "Cargo.toml"]) = true) as Hj
    by (by apply join2_isabs).
  split_and!; [done..|]. intros w w' Hroot. unfold fs.resolve. by rewrite Hj, Hroot.
Qed.

Lemma workspace_is_absolute_witness :
  os_path.isabs (workspace (demo.command true false)) = true.
Proof.
  apply (workspace_is_absolute demo.dist demo.setup_cfg (fs.getcwd demo.fresh)).
  vm_compute. reflexivity.
Defined.

Lemma mapM_result_Ok {A B} (f : A → result B) (l : list A) (k : list B) :
  mapM f l = Ok k → Forall2 (λ x y, f x = Ok y) l k.
Proof.
  revert k. induction l as [|x l IH]; intros k; cbn.
  - intros [= <-]. constructor.
  - intros H. inv_bind H as y Hy. inv_bind H as k' Hk'. injection H as <-.
    constructor; auto.
Qed.

(** X11. A workspace document that [build_workspace_toml] returns has
    the one section [workspace] with the one option [members]: the
    bracketed list, separated by a comma and a space, of one quoted member
    for every extension, in order, the member being the directory of the
    manifest path of the extension relative to the current directory. No
    extension has an empty manifest path then. *)
Theorem workspace_members {lower : StrLower} (self : tomlgen_rust) (cwd : pystr)
    (toml : ConfigParser.t) :
  build_workspace_toml self cwd = Ok toml →
  ∃ members,
    Forall2 (λ ext member, ∃ p, os_path.relpath cwd (path ext) os_path.curdir = Ok p
                               ∧ member = os_path.dirname p)
      (extensions self) members
    ∧ Forall (λ ext, path ext ≠ []) (extensions self)
    ∧ ConfigParser._sections toml
      = [(py "workspace",
          [(ConfigParser.optionxform (py "members"),
            py "[" ++ Str.join (py ", ") (quote <$> members) ++ py "]")])].
Proof.
  unfold build_workspace_toml. intros H.
  inv_bind H as members Hmembers. inv_bind H as t1 H1. inv_bind H as t2 H2.
  assert (toml = t2) as -> by (by injection H). clear H.
  apply mapM_result_Ok in Hmembers. exists members. split_and!.
  - eapply Forall2_impl; [exact Hmembers|]. cbn. intros ext member Hm.
    inv_bind Hm as p Hp. exists p. split; [done|]. by injection Hm.
  - eapply Forall2_Forall_l; [exact Hmembers|]. apply Forall_true.
    intros member ext Hm Hpath. rewrite Hpath in Hm. inv_bind Hm as p Hp. done.
  - apply add_section_Ok in H1 as (_ & Hs1 & _).
    apply set_Ok in H2 as (d & Hd & -> & _); [|done..].
    rewrite Hs1 in *.
    change (ConfigParser._sections ConfigParser.new ++ [(py "workspace", [])])
      with [(py "workspace", @nil (pystr * pystr))] in *.
    cbn [odict.get odict.set] in *. rewrite decide_True by done.
    rewrite decide_True in Hd by done. by simplify_eq.
Qed.

Lemma workspace_members_witness :
  ∃ toml, build_workspace_toml (lower := ascii_lower) (demo.command true false)
            (fs.getcwd demo.fresh) = Ok toml
          ∧ ConfigParser.write toml
            = py "[workspace]" ++ [newline] ++ py "members = [" ++ quote (py "lib/mylib/rustext")
              ++ py "]" ++ [newline; newline].
Proof.
  destruct (build_workspace_toml (lower := ascii_lower) (demo.command true false)
              (fs.getcwd demo.fresh)) as [toml|e] eqn:Hb; [|by vm_compute in Hb].
  exists toml. split; [done|].
  destruct (workspace_members (lower := ascii_lower) _ _ _ Hb) as (members & Hm & _ & Hs).
  unfold ConfigParser.write. rewrite Hs.
  apply Forall2_cons_inv_l in Hm as (m & ms & (p & Hp & ->) & ->%Forall2_nil_inv_l & ->).
  vm_compute in Hp. injection Hp as <-.
  apply build_workspace_toml_Ok in Hb as [_ ->].
  vm_compute. reflexivity.
Defined.

(** X12. [_slugify] works character by character: the slug of a
    concatenation is the concatenation of the slugs, the slug of parts
    joined by dots joins the slugs of the parts by underscores, and a path
    whose separators have been replaced by dots has the slug of the path
    itself. *)
Theorem slugify_compositional (a b rel : pystr) (parts : list pystr) :
  _slugify (a ++ b) = _slugify a ++ _slugify b
  ∧ _slugify (Str.join (py ".") parts) = Str.join (py "_") (_slugify <$> parts)
  ∧ _slugify (Str.replace os_path.sep (py ".") rel) = _slugify rel.
Proof.
  split_and!.
  - rewrite !_slugify_fmap. apply fmap_app.
  - induction parts as [|p [|q parts] IH]; [done..|].
    rewrite str_join_cons. cbn [fmap list_fmap] in *. rewrite str_join_cons, <- IH.
    rewrite !_slugify_fmap, !fmap_app. done.
  - rewrite !_slugify_fmap. unfold Str.replace.
    induction rel as [|x rel IH]; [done|]. rewrite !fmap_cons.
    change (mjoin (?l :: ?ls)) with (l ++ mjoin ls). rewrite fmap_app, IH.
    by destruct (decide (x = os_path.sep)) as [->|].
Qed.

(** A visit determines its extension. *)
Lemma extension_of_inj w entry ext ext' visit :
  extension_of w entry ext visit → extension_of w entry ext' visit → ext = ext'.
Proof.
  intros (rel & Hrel & Hn & Hp & Hl) (rel' & Hrel' & Hn' & Hp' & Hl').
  destruct ext, ext'. cbn in *. congruence.
Qed.

Lemma extensions_of_inj w entry exts exts' visits :
  Forall2 (extension_of w entry) exts visits →
  Forall2 (extension_of w entry) exts' visits → exts = exts'.
Proof.
  intros H. revert exts'. induction H as [|ext visit exts visits Hext _ IH];
    intros exts' H'.
  - by apply Forall2_nil_inv_r in H'.
  - apply Forall2_cons_inv_r in H' as (ext' & exts'' & Hext' & H' & ->).
    f_equal; [by eapply extension_of_inj|by apply IH].
Qed.

Lemma visited_app w ds1 ds2 :
  ds1 ≠ [] → ds2 ≠ [] → visited w (ds1 ++ ds2) = visited w ds1 ++ visited w ds2.
Proof.
  intros H1 H2. unfold visited.
  rewrite !bool_decide_eq_true_2 by (done || by destruct ds1).
  by rewrite fmap_app, join_app.
Qed.

(** X13. Discovery treats its roots one after the other: for two
    non-empty lists of roots, the result for [ds1 ++ ds2] is the result
    for [ds1] followed by the result for [ds2]. *)
Theorem find_rust_extensions_app (st st1 st2 : state) (ds1 ds2 : list pystr)
    (libfile : pystr) (exts1 exts2 : list RustExtension) :
  ds1 ≠ [] → ds2 ≠ [] →
  find_rust_extensions ds1 libfile st = (Ok exts1, st1) →
  find_rust_extensions ds2 libfile st = (Ok exts2, st2) →
  find_rust_extensions (ds1 ++ ds2) libfile st = (Ok (exts1 ++ exts2), st).
Proof.
  intros Hds1 Hds2 H1 H2.
  destruct (find_rust_extensions_spec st ds1 libfile) as (e1 & Hf1 & He1).
  destruct (find_rust_extensions_spec st ds2 libfile) as (e2 & Hf2 & He2).
  destruct (find_rust_extensions_spec st (ds1 ++ ds2) libfile) as (e & Hf & He).
  rewrite Hf1 in H1. rewrite Hf2 in H2. simplify_eq.
  rewrite Hf. do 2 f_equal.
  rewrite visited_app, filter_app in He by done.
  eapply extensions_of_inj; [exact He|]. by apply Forall2_app.
Qed.

Lemma find_rust_extensions_app_witness :
  let st := demo.start demo.fresh in
  ∃ exts, find_rust_extensions [py "lib"] (py "lib.rs") st = (Ok exts, st)
          ∧ find_rust_extensions [py "lib"; py "lib/mylib"] (py "lib.rs") st
            = (Ok (exts ++ exts), st)
          ∧ length exts = 1%nat.
Proof.
  intros st.
  destruct (find_rust_extensions_spec st [py "lib"] (py "lib.rs")) as (e1 & H1 & _).
  destruct (find_rust_extensions_spec st [py "lib/mylib"] (py "lib.rs")) as (e2 & H2 & _).
  assert (e2 = e1) as -> by (vm_compute in H1, H2; congruence).
  exists e1. split_and!; [done| |vm_compute in H1; by simplify_eq].
  by apply (find_rust_extensions_app st st st [py "lib"] [py "lib/mylib"] (py "lib.rs")).
Defined.

Section paths.
Implicit Types (s t p base f : pystr) (drop : char → bool).

Lemma str_lstrip_app drop s t :
  Forall (λ c, drop c = true) s → Str.lstrip drop (s ++ t) = Str.lstrip drop t.
Proof. induction 1 as [|c s Hc _ IH]; [done|]. cbn. by rewrite Hc. Qed.

Lemma str_rstrip_app drop s t :
  Forall (λ c, drop c = true) t → Str.rstrip drop (s ++ t) = Str.rstrip drop s.
Proof.
  intros Ht. unfold Str.rstrip. rewrite reverse_app, str_lstrip_app; [done|].
  by apply Forall_reverse.
Qed.

Lemma str_rstrip_snoc drop s c :
  drop c = false → Str.rstrip drop (s ++ [c]) = s ++ [c].
Proof.
  intros Hc. unfold Str.rstrip. rewrite reverse_app, reverse_singleton.
  cbn [app Str.lstrip]. rewrite Hc.
  by rewrite reverse_cons, reverse_involutive.
Qed.

(** The head that [dirname] cuts off a joined path does not depend on
    the last component. *)
Lemma rstrip_join2 base f :
  base ≠ [] → os_path.sep ∉ f →
  Str.rstrip (λ x, bool_decide (x ≠ os_path.sep)) (os_path.join2 base f)
  = if Str.endswith base [os_path.sep] then base else base ++ [os_path.sep].
Proof.
  intros Hbase Hf.
  assert (Forall (λ c, bool_decide (c ≠ os_path.sep) = true) f) as Hdrop.
  { apply Forall_forall. intros c Hc. apply bool_decide_eq_true. by intros ->. }
  unfold os_path.join2.
  assert (Str.startswith f [os_path.sep] = false) as ->.
  { apply bool_decide_eq_false. destruct f as [|c f]; [done|]. cbn. intros [= ->].
    apply Hf. left. }
  rewrite bool_decide_eq_false_2 by done. cbn [orb].
  destruct (Str.endswith base [os_path.sep]) eqn:Hend.
  - rewrite str_rstrip_app by done.
    apply bool_decide_eq_true in Hend.
    rewrite <- (take_drop (length base - length [os_path.sep]) base), Hend.
    apply str_rstrip_snoc. by apply bool_decide_eq_false; intros ?.
  - rewrite (app_assoc base), str_rstrip_app by done.
    apply str_rstrip_snoc. by apply bool_decide_eq_false; intros ?.
Qed.

Lemma dirname_join2 base f g :
  base ≠ [] → os_path.sep ∉ f → os_path.sep ∉ g →
  os_path.dirname (os_path.join2 base f) = os_path.dirname (os_path.join2 base g).
Proof.
  intros Hbase Hf Hg. unfold os_path.dirname. cbv zeta.
  by rewrite !rstrip_join2.
Qed.

Lemma join_nonempty a ps : a ≠ [] → os_path.join a ps ≠ [].
Proof.
  unfold os_path.join. revert a. induction ps as [|p ps IH]; intros a Ha; [done|].
  cbn. by apply IH, join2_nonempty.
Qed.

Lemma relpath_nonempty cwd p start rel :
  os_path.relpath cwd p start = Ok rel → rel ≠ [].
Proof.
  unfold os_path.relpath. case_bool_decide; [done|]. cbv zeta.
  destruct (_ ++ _) as [|r rs] eqn:Hrel; [by intros [= <-]|]. intros [= <-].
  apply join_nonempty.
  assert (r ∈ r :: rs) as Hin by left. rewrite <- Hrel in Hin.
  apply elem_of_app in Hin as [Hin|Hin].
  - apply elem_of_replicate in Hin as [-> _]. done.
  - apply subseteq_drop in Hin. by apply list_elem_of_filter in Hin as [? _].
Qed.

Lemma str_replace_nonempty c new s : new ≠ [] → s ≠ [] → Str.replace c new s ≠ [].
Proof.
  intros Hnew Hs. destruct s as [|x s]; [done|]. unfold Str.replace.
  rewrite fmap_cons. change (mjoin (?l :: ?ls)) with (l ++ mjoin ls).
  destruct (decide (x = c)); [by destruct new|done].
Qed.

Lemma str_replace_gone c new s : c ∉ new → c ∉ Str.replace c new s.
Proof.
  intros Hnew. unfold Str.replace. induction s as [|x s IH]; [apply not_elem_of_nil|].
  rewrite fmap_cons. change (mjoin (?l :: ?ls)) with (l ++ mjoin ls).
  rewrite elem_of_app. intros [Hin|Hin]; [|done].
  destruct (decide (x = c)); [done|]. apply list_elem_of_singleton in Hin. congruence.
Qed.
End paths.

Lemma visited_bases w ds : Forall (λ visit, visit.1.1 ≠ []) (visited w ds).
Proof.
  unfold visited. apply Forall_forall.
  intros visit (visits & Hin & Hvisits)%list_elem_of_join.
  apply list_elem_of_fmap in Hvisits as [top [-> _]].
  pose proof (walk_bases w top) as Hb. rewrite Forall_forall in Hb. by apply Hb.
Qed.

(** X14. When the entry filename holds no separator, every extension
    that discovery returns has a non-empty name without separators and a
    non-empty manifest path, and its manifest lies in the directory of its
    library source. *)
Theorem discovered_extension_shape (st st' : state) (directories : list pystr)
    (entry : pystr) (exts : list RustExtension) :
  os_path.sep ∉ entry →
  find_rust_extensions directories entry st = (Ok exts, st') →
  Forall (λ ext, name ext ≠ []
                 ∧ (os_path.sep ∉ name ext)
                 ∧ path ext ≠ []
                 ∧ os_path.dirname (path ext) = os_path.dirname (libfile ext)) exts.
Proof.
  intros Hentry Hfind.
  destruct (find_rust_extensions_spec st directories entry) as (exts' & Hf & Hexts).
  rewrite Hf in Hfind. assert (exts' = exts) as -> by congruence. clear Hfind.
  eapply Forall2_Forall_l; [exact Hexts|].
  apply Forall_forall. intros visit [_ Hvisit]%list_elem_of_filter.
  assert (visit.1.1 ≠ []) as Hbase.
  { pose proof (visited_bases (st_fs st) directories) as Hb.
    rewrite Forall_forall in Hb. by apply Hb. }
  intros ext (rel & Hrel & Hname & Hpath & Hlib). rewrite Hname, Hpath, Hlib.
  split_and!.
  - apply str_replace_nonempty; [done|]. by eapply relpath_nonempty.
  - apply str_replace_gone. by apply (bool_decide_unpack _).
  - by apply join_nonempty.
  - apply dirname_join2; [done| |done]. by apply (bool_decide_unpack _).
Qed.

Lemma discovered_extension_shape_witness :
  ∃ ext, (find_rust_extensions [py "lib"] (py "lib.rs") (demo.start demo.fresh)).1
         = Ok [ext]
         ∧ os_path.dirname (path ext) = os_path.dirname (libfile ext).
Proof.
  destruct (find_rust_extensions [py "lib"] (py "lib.rs") (demo.start demo.fresh))
    as [[exts|e] st'] eqn:Hfind; [|by vm_compute in Hfind].
  assert (length exts = 1%nat) as Hlen by (vm_compute in Hfind; by simplify_eq).
  destruct exts as [|ext [|??]]; [done| |done].
  exists ext. split; [done|].
  assert (os_path.sep ∉ py "lib.rs") as Hentry
    by (apply (bool_decide_unpack _); vm_compute; reflexivity).
  pose proof (discovered_extension_shape _ _ _ _ _ Hentry Hfind) as Hshape.
  apply Forall_inv in Hshape as (_ & _ & _ & Hdir). exact Hdir.
Defined.

Lemma odict_get_snoc_ne {V} (k k' : pystr) (v : V) (d : list (pystr * V)) :
  k' ≠ k → odict.get k' (d ++ [(k, v)]) = odict.get k' d.
Proof.
  intros Hne. induction d as [|[k0 v0] d IH]; cbn.
  - by rewrite decide_False.
  - by destruct (decide (k0 = k')).
Qed.

Section parser_sections.
Context {lower : StrLower}.
Implicit Types (p : ConfigParser.t) (s k v : pystr).

(** What a section holds after [add_section] and after [set]. *)
Lemma add_section_get s p p' :
  ConfigParser.add_section s p = Ok p' →
  ∀ s', odict.get s' (ConfigParser._sections p')
        = if decide (s' = s) then Some [] else odict.get s' (ConfigParser._sections p).
Proof.
  intros (Hfresh & -> & _)%add_section_Ok s'. destruct (decide (s' = s)) as [->|Hne].
  - by apply odict_get_snoc_fresh.
  - by apply odict_get_snoc_ne.
Qed.

Lemma set_get s k v p p' :
  ConfigParser.set s k v p = Ok p' →
  s ≠ [] → s ≠ ConfigParser.default_section →
  ∀ s', odict.get s' (ConfigParser._sections p')
        = if decide (s' = s)
          then odict.set (ConfigParser.optionxform k) v
                 <$> odict.get s (ConfigParser._sections p)
          else odict.get s' (ConfigParser._sections p).
Proof.
  intros H Hs1 Hs2 s'. apply set_Ok in H as (d & Hd & -> & _); [|done..].
  destruct (decide (s' = s)) as [->|Hne].
  - by rewrite odict_get_set_eq, Hd.
  - by apply odict_get_set_ne.
Qed.

Lemma set_all_other s items p p' s' :
  s ≠ [] → s ≠ ConfigParser.default_section → s' ≠ s →
  for_result items (λ p kv, ConfigParser.set s kv.1 kv.2 p) p = Ok p' →
  odict.get s' (ConfigParser._sections p') = odict.get s' (ConfigParser._sections p).
Proof.
  intros Hs1 Hs2 Hne. revert p'.
  induction items as [|[k v] items IH] using rev_ind; intros p'.
  - cbn. by intros [= <-].
  - rewrite for_result_snoc. intros H. inv_bind H.
    rewrite (set_get _ _ _ _ _ H Hs1 Hs2 s'), decide_False by done. by apply IH.
Qed.
End parser_sections.

Ltac py_ne := let H := fresh in intros H; vm_compute in H; discriminate H.

Ltac sections_of H :=
  let G := fresh in
  first [ pose proof (add_section_get _ _ _ H) as G
        | pose proof (set_get _ _ _ _ _ H ltac:(py_ne) ltac:(py_ne)) as G ];
  clear H; rename G into H.

(** X15. The [package] and [lib] sections of a manifest, when
    [optionxform] leaves the names of the options that the command sets as
    they are. [package] holds name, version, authors and publish and, if a
    workspace is to be created, the relative path to the workspace, in
    this order; [lib] holds crate-type, the slug of the extension name as
    name, and as path the library source relative to the directory of the
    manifest. No dependency of the configuration changes either section. *)
Theorem manifest_layout {lower : StrLower} (self : tomlgen_rust) (cwd : pystr)
    (ext : RustExtension) (toml : ConfigParser.t) :
  Forall (λ k, ConfigParser.optionxform k = k) manifest_options →
  build_cargo_toml self cwd ext = Ok toml →
  let tomldir := os_path.dirname (path ext) in
  ∃ libpath,
    os_path.relpath cwd (libfile ext) tomldir = Ok libpath
    ∧ odict.get (py "package") (ConfigParser._sections toml)
      = Some ([(py "name", quote (name ext));
               (py "version", quote (get_version (distribution self)));
               (py "authors", authors self);
               (py "publish", py "false")]
              ++ if create_workspace self
                 then match os_path.relpath cwd (workspace self) tomldir with
                      | Ok to_workspace => [(py "workspace", quote to_workspace)]
                      | Raise _ => []
                      end
                 else [])
    ∧ odict.get (py "lib") (ConfigParser._sections toml)
      = Some [(py "crate-type", py "[" ++ quote (py "cdylib") ++ py "]");
              (py "name", quote (_slugify (name ext)));
              (py "path", quote libpath)].
Proof.
  intros Hfix H tomldir. unfold manifest_options in Hfix.
  repeat match type of Hfix with
         | Forall _ (_ :: _) =>
             let Hk := fresh "Hk" in apply Forall_cons in Hfix as [Hk Hfix]
         end.
  clear Hfix. unfold build_cargo_toml in H.
  inv_bind H as t1 H1. inv_bind H as t2 H2. inv_bind H as t3 H3.
  inv_bind H as t4 H4. inv_bind H as t5 H5. inv_bind H as t6 H6.
  inv_bind H as t7 H7. inv_bind H as t8 H8. inv_bind H as t9 H9.
  inv_bind H as libpath Hlibpath. inv_bind H as t10 H10.
  inv_bind H as t11 H11.
  exists libpath. split; [done|].
  sections_of H1. sections_of H2. sections_of H3. sections_of H4. sections_of H5.
  sections_of H7. sections_of H8. sections_of H9. sections_of H10.
  assert (∀ s', odict.get s' (ConfigParser._sections t6)
                = if decide (s' = py "package")
                  then Some ([(py "name", quote (name ext));
                              (py "version", quote (get_version (distribution self)));
                              (py "authors", authors self);
                              (py "publish", py "false")]
                             ++ if create_workspace self
                                then match os_path.relpath cwd (workspace self) tomldir with
                                     | Ok to_workspace => [(py "workspace", quote to_workspace)]
                                     | Raise _ => []
                                     end
                                else [])
                  else None) as Hpackage.
  { assert (∀ s', odict.get s' (ConfigParser._sections t5)
            = if decide (s' = py "package")
              then Some [(py "name", quote (name ext));
                         (py "version", quote (get_version (distribution self)));
                         (py "authors", authors self);
                         (py "publish", py "false")]
              else None) as H5'.
    { intros s'. rewrite (H5 s').
      rewrite (H4 (py "package")).
      rewrite (H3 (py "package")).
      rewrite (H2 (py "package")).
      rewrite (H1 (py "package")).
      rewrite (H4 s').
      rewrite (H3 s').
      rewrite (H2 s').
      rewrite (H1 s').
      rewrite !(decide_True (P := py "package" = py "package")) by done.
      destruct (decide (s' = py "package")) as [->|Hne]; [|done].
      cbn [fmap option_fmap option_map odict.set].
      repeat match goal with Hk : ConfigParser.optionxform _ = _ |- _ => rewrite Hk end.
      cbn [odict.set]. repeat (rewrite decide_False by py_ne). done. }
    intros s'. destruct (create_workspace self).
    - inv_bind H6 as to_workspace Hrel. fold tomldir in Hrel. rewrite Hrel.
      sections_of H6. rewrite (H6 s'), !H5'.
      rewrite (decide_True (P := py "package" = py "package")) by done.
      destruct (decide (s' = py "package")); [|done].
      cbn [fmap option_fmap option_map odict.set].
      repeat match goal with Hk : ConfigParser.optionxform _ = _ |- _ => rewrite Hk end.
      cbn [odict.set]. repeat (rewrite decide_False by py_ne). done.
    - injection H6 as <-. rewrite H5'. by rewrite app_nil_r. }
  assert (∀ s', odict.get s' (ConfigParser._sections t10)
                = if decide (s' = py "lib")
                  then Some [(py "crate-type", py "[" ++ quote (py "cdylib") ++ py "]");
                             (py "name", quote (_slugify (name ext)));
                             (py "path", quote libpath)]
                  else odict.get s' (ConfigParser._sections t6)) as Hlib.
  { intros s'.
    rewrite (H10 s').
    rewrite (H9 (py "lib")).
    rewrite (H8 (py "lib")).
    rewrite (H7 (py "lib")).
    rewrite (H9 s').
    rewrite (H8 s').
    rewrite (H7 s').
    rewrite !(decide_True (P := py "lib" = py "lib")) by done.
    destruct (decide (s' = py "lib")) as [->|Hne]; [|done].
    cbn [fmap option_fmap option_map odict.set].
    repeat match goal with Hk : ConfigParser.optionxform _ = _ |- _ => rewrite Hk end.
    cbn [odict.set]. repeat (rewrite decide_False by py_ne). done. }
  assert (∀ s', s' ≠ py "dependencies" →
                odict.get s' (ConfigParser._sections toml)
                = odict.get s' (ConfigParser._sections t10)) as Hrest.
  { intros s' Hne.
    rewrite (set_all_other (py "dependencies") _ _ _ s' ltac:(py_ne) ltac:(py_ne) Hne H).
    by rewrite (add_section_get _ _ _ H11 s'), decide_False. }
  split.
  - rewrite Hrest, Hlib, decide_False, Hpackage, decide_True by (done || py_ne). done.
  - rewrite Hrest, Hlib, decide_True by (done || py_ne). done.
Qed.

Lemma manifest_layout_witness :
  ∃ toml,
    build_cargo_toml (lower := ascii_lower) (demo.command true false)
      (fs.getcwd demo.fresh) demo.ext = Ok toml
    ∧ odict.get (py "lib") (ConfigParser._sections toml)
      = Some [(py "crate-type", py "[" ++ quote (py "cdylib") ++ py "]");
              (py "name", quote (py "lib_mylib_rustext"));
              (py "path", quote (py "lib.rs"))].
Proof.
  destruct (build_cargo_toml (lower := ascii_lower) (demo.command true false)
              (fs.getcwd demo.fresh) demo.ext) as [toml|e] eqn:Hb; [|by vm_compute in Hb].
  exists toml. split; [done|].
  destruct (manifest_layout (lower := ascii_lower) (demo.command true false)
              (fs.getcwd demo.fresh) demo.ext toml) as (libpath & Hlibpath & _ & Hlib).
  - vm_compute. repeat constructor.
  - exact Hb.
  - rewrite Hlib. vm_compute in Hlibpath. injection Hlibpath as <-.
    vm_compute. reflexivity.
Defined.

Section run_log.
Context {lower : StrLower}.
Implicit Types (self : tomlgen_rust) (ext : RustExtension) (st : state).

Lemma run_ext_log self ext st st' :
  run_ext self ext st = (Ok tt, st') →
  ∃ entry, st_log st' = st_log st ++ [entry]
           ∧ (entry = (INFO, msg_creating ext) ∨ entry = (WARN, msg_skipping ext)).
Proof.
  rewrite run_ext_eq. destruct (build_cargo_toml _ _ _) as [toml|e]; [|done].
  destruct (negb _ || _).
  - destruct (fs.write_file _ _ _) as [w|e]; [|done]. intros [= <-]. cbn. eauto.
  - intros [= <-]. cbn. eauto.
Qed.

Lemma loop_log self exts var st v st' :
  for_in exts (run_ext self) var st = (Ok v, st') →
  ∃ entries,
    st_log st' = st_log st ++ entries
    ∧ Forall2 (λ ext entry, entry = (INFO, msg_creating ext)
                            ∨ entry = (WARN, msg_skipping ext)) exts entries.
Proof.
  revert var st. induction exts as [|ext exts IH]; intros var st.
  - rewrite for_in_nil. intros [= _ <-]. exists []. by rewrite app_nil_r.
  - rewrite for_in_cons. destruct (run_ext self ext st) as [[[]|e] st1] eqn:Hext; [|done].
    intros (entries & Hlog & Hentries)%IH.
    apply run_ext_log in Hext as (entry & Hlog1 & Hentry).
    exists (entry :: entries). split; [|by constructor].
    by rewrite Hlog, Hlog1, <- app_assoc.
Qed.
End run_log.

(** X16. A successful run logs one message for every extension, in
    the order of the extensions, each of them either the creation of the
    manifest of the extension or the warning that it is skipped, followed
    by one message about the workspace manifest exactly when a workspace
    is to be created and there is an extension. *)
Theorem run_log_entries {lower : StrLower} (self : tomlgen_rust) (st st' : state) :
  run self st = (Ok tt, st') →
  ∃ entries tail,
    st_log st' = st_log st ++ entries ++ tail
    ∧ Forall2 (λ ext entry, entry = (INFO, msg_creating ext)
                            ∨ entry = (WARN, msg_skipping ext))
        (extensions self) entries
    ∧ if create_workspace self && bool_decide (extensions self ≠ [])
      then tail = [(INFO, msg_creating_workspace)]
           ∨ tail = [(WARN, msg_skipping_workspace)]
      else tail = [].
Proof.
  rewrite run_eq.
  destruct (for_in _ _ _ _) as [[v|e] st1] eqn:Hloop; [|done].
  apply loop_log in Hloop as (entries & Hlog & Hentries).
  rewrite run_workspace_eq. intros Hws. exists entries.
  destruct (create_workspace self && _).
  - destruct (build_workspace_toml _ _) as [toml|e]; [|done].
    destruct v as [ext|]; [|done]. destruct (negb _ || _).
    + destruct (fs.write_file _ _ _) as [w|e]; [|done]. injection Hws as <-.
      exists [(INFO, msg_creating_workspace)]. cbn. rewrite Hlog, <- app_assoc. auto.
    + injection Hws as <-.
      exists [(WARN, msg_skipping_workspace)]. cbn. rewrite Hlog, <- app_assoc. auto.
  - injection Hws as <-. exists []. by rewrite app_nil_r.
Qed.

Lemma run_log_entries_witness :
  ∃ st', run (lower := ascii_lower) (demo.command true false) (demo.start demo.stale)
         = (Ok tt, st')
         ∧ length (st_log st') = 2%nat.
Proof.
  destruct (run (lower := ascii_lower) (demo.command true false) (demo.start demo.stale))
    as [[[]|e] st'] eqn:Hrun; [|by vm_compute in Hrun].
  exists st'. split; [done|].
  destruct (run_log_entries (lower := ascii_lower) _ _ _ Hrun)
    as (entries & tail & -> & Hentries & Htail).
  apply Forall2_length in Hentries. cbn in Hentries, Htail.
  rewrite !length_app, <- Hentries. by destruct Htail as [-> | ->].
Defined.
